(** * Assessment attempt page: a shallow embedding

    The page component [AssessmentAnswerPage] keeps the attempt session in
    React state hooks and changes it from event handlers.  Every handler is
    rendered here as a function from the state of the render it closes
    over (plus the outcome of the collaborator it awaits, where there is
    one) to the next state and the list of effects it performs: toasts,
    collaborator calls, console output and route changes.

    Numbers of the page are JavaScript numbers; the indices, counts and
    millisecond timestamps that occur here are integers far below 2^53, so
    they are [Z] (or [nat] for lengths).  The [answers] object is used as a
    dictionary from question id to answer and is a [gmap]; only its lookups,
    its number of keys and the collection of its values are observed, never
    their enumeration order. *)

From Stdlib Require Import ZArith.
From stdpp Require Import base tactics option list strings pretty gmap fin_maps.

Local Open Scope Z_scope.

(** ** JavaScript strings and [String.prototype.trim] *)

Module JsString.

(** A string value is its sequence of UTF-16 code units. *)
Definition t := list N.

(** ASCII literals, one code unit per character. *)
Fixpoint of_string (s : string) : t :=
  match s with
  | EmptyString => []
  | String c r => Ascii.N_of_ascii c :: of_string r
  end.

(** WhiteSpace and LineTerminator of ECMAScript: what [trim] strips. *)
Definition isWhiteSpace (c : N) : bool :=
  ((9 <=? c) && (c <=? 13))%N              (* TAB LF VT FF CR *)
  || (c =? 32)%N || (c =? 160)%N           (* SP, NBSP *)
  || (c =? 5760)%N                         (* U+1680 *)
  || ((8192 <=? c) && (c <=? 8202))%N      (* U+2000 .. U+200A *)
  || (c =? 8232)%N || (c =? 8233)%N        (* LS, PS *)
  || (c =? 8239)%N || (c =? 8287)%N        (* U+202F, U+205F *)
  || (c =? 12288)%N || (c =? 65279)%N.     (* U+3000, U+FEFF *)

Fixpoint trimStart (s : t) : t :=
  match s with
  | [] => []
  | c :: r => if isWhiteSpace c then trimStart r else s
  end.

Definition trimEnd (s : t) : t := rev (trimStart (rev s)).

Definition trim (s : t) : t := trimEnd (trimStart s).

End JsString.

(** ** Data model *)

(** Modelled from the spec: the type [AssessmentAnswer] is imported from
    [@/lib/hooks/useAssessmentLink], which is not among the sources.  The
    fields are the ones the page reads and writes.  [textAnswer] is [None]
    when the field is [undefined] or [null] (the page tests for both
    together), [selectedChoiceIds] is [None] when the field is missing. *)
Record AssessmentAnswer := mkAnswer {
  assessmentEntryId : string;
  selectedChoiceIds : option (list string);
  textAnswer : option JsString.t;
}.

(** The predicate of the auto-save filter in [handleAnswerChange]:
<<
  if (ans.textAnswer !== undefined && ans.textAnswer !== null) {
    return ans.textAnswer.trim().length > 0;
  }
  return ans.selectedChoiceIds && ans.selectedChoiceIds.length > 0;
>> *)
Definition isValidAnswer (ans : AssessmentAnswer) : bool :=
  match textAnswer ans with
  | Some text => (0 <? length (JsString.trim text))%nat
  | None =>
      match selectedChoiceIds ans with
      | Some ids => (0 <? length ids)%nat
      | None => false
      end
  end.

(** Modelled from the spec: the assessment tree comes from the link
    validity query ([validityData?.assessmentLink?.assessment]); its type
    declaration is not among the sources.  Only the fields the page logic
    reads are kept. *)
Inductive QuestionType := RADIO | CHECKBOX | TEXT.

Record Question := mkQuestion {
  question_id : string;
  questionType : QuestionType;
}.

Record Section_ := mkSection {
  title : string;
  questions : list Question;
}.

Record Assessment := mkAssessment {
  name : string;
  timed : bool;
  duration : Z;                         (* minutes *)
  sections : list Section_;
}.

(** The shape of a saved answer as the backend returns it (the inline type
    annotation of the [forEach] callback in [handleStartAssessment]). *)
Record Choice := mkChoice {
  choice_id : string;
  choiceText : string;
  choiceImageUrl : option string;
  isCorrect : option bool;
}.

Record BackendAnswer := mkBackendAnswer {
  backend_assessmentEntryId : string;
  selectedChoices : option (list Choice);
  backend_textAnswer : option JsString.t;   (* [None]: undefined or null *)
}.

Inductive AttemptStatus := NOT_STARTED | IN_PROGRESS | SUBMITTED.

(** Modelled from the spec: [AssessmentAttempt] is imported from
    [@/lib/hooks/useAssessmentLink].  [startedAt] is the instant the
    timestamp string denotes, in milliseconds since the epoch
    ([new Date(startedAt).getTime()]); [None] stands for a missing or empty
    string, which is what the truthiness test of the timer effect rejects. *)
Record AssessmentAttempt := mkAttempt {
  attemptStatus : AttemptStatus;
  startedAt : option Z;
  assessmentAnswers : option (list BackendAnswer);
}.

(** ** Page state: the seven [useState] cells *)

Record PageState := mkState {
  assessmentAttempt : option AssessmentAttempt;
  currentSectionIndex : Z;
  currentQuestionIndex : Z;
  answers : gmap string AssessmentAnswer;
  isStarted : bool;
  timeRemaining : option Z;
  isTimeUp : bool;
}.

Definition initialState : PageState :=
  mkState None 0 0 ∅ false None false.

Definition setAssessmentAttempt (v : option AssessmentAttempt) (st : PageState) :=
  mkState v (currentSectionIndex st) (currentQuestionIndex st) (answers st)
          (isStarted st) (timeRemaining st) (isTimeUp st).
Definition setCurrentSectionIndex (v : Z) (st : PageState) :=
  mkState (assessmentAttempt st) v (currentQuestionIndex st) (answers st)
          (isStarted st) (timeRemaining st) (isTimeUp st).
Definition setCurrentQuestionIndex (v : Z) (st : PageState) :=
  mkState (assessmentAttempt st) (currentSectionIndex st) v (answers st)
          (isStarted st) (timeRemaining st) (isTimeUp st).
Definition setAnswers (v : gmap string AssessmentAnswer) (st : PageState) :=
  mkState (assessmentAttempt st) (currentSectionIndex st)
          (currentQuestionIndex st) v (isStarted st) (timeRemaining st)
          (isTimeUp st).
Definition setIsStarted (v : bool) (st : PageState) :=
  mkState (assessmentAttempt st) (currentSectionIndex st)
          (currentQuestionIndex st) (answers st) v (timeRemaining st)
          (isTimeUp st).
Definition setTimeRemaining (v : option Z) (st : PageState) :=
  mkState (assessmentAttempt st) (currentSectionIndex st)
          (currentQuestionIndex st) (answers st) (isStarted st) v
          (isTimeUp st).
Definition setIsTimeUp (v : bool) (st : PageState) :=
  mkState (assessmentAttempt st) (currentSectionIndex st)
          (currentQuestionIndex st) (answers st) (isStarted st)
          (timeRemaining st) v.

(** ** Effects and collaborator outcomes *)

Inductive ToastKind := toast_error | toast_warning | toast_info | toast_success.

Inductive Effect :=
| StartAssessment (linkId : string)
| SaveAnswers (linkId : string) (assessmentAnswers : list AssessmentAnswer)
| SubmitAssessment (linkId : string)
| RouterPush (path : string)
| Toast (kind : ToastKind) (message : string)
| ConsoleError (message : string).

(** How an awaited [mutateAsync] promise settles. *)
Inductive Settled := Fulfilled | Rejected.

(** A handler either returns or throws; in both cases the state updates it
    queued before are applied by React. *)
Inductive Completion := Returns (st : PageState) | Throws (st : PageState).

Definition stateOf (c : Completion) : PageState :=
  match c with Returns st | Throws st => st end.

(** ** JavaScript helpers *)

(** [xs[i]] on an array: [undefined] outside [0, length). *)
Definition index {A} (xs : list A) (i : Z) : option A :=
  if decide (0 <= i) then xs !! Z.to_nat i else None.

(** [Object.values(o)]: the property values of a dictionary object.  The
    order in which JavaScript lists them is not modelled. *)
Definition objectValues {A} (o : gmap string A) : list A :=
  (map_to_list o).*2.

(** [Object.keys(o).length] *)
Definition objectKeysLength {A} (o : gmap string A) : nat := size o.

(** [Math.ceil(a / b)] for integers [a] and [b > 0]. *)
Definition ceilDiv (a b : Z) : Z := - ((- a) / b).

(** ** The page *)

Section Page.

(** The route parameter and the assessment of the validated link; both
    are fixed while the page is mounted. *)
Variable linkId : string.
Variable assessment : option Assessment.

(** *** Derived values of a render *)

Definition totalQuestions : nat :=
  match assessment with
  | Some a =>
      foldl (λ acc section, acc + length (questions section))%nat 0%nat
            (sections a)
  | None => 0%nat
  end.

Definition answeredQuestions (st : PageState) : nat :=
  objectKeysLength (answers st).

Definition allQuestionsAnswered (st : PageState) : bool :=
  (answeredQuestions st =? totalQuestions)%nat && (0 <? totalQuestions)%nat.

Definition currentSection (st : PageState) : option Section_ :=
  match assessment with
  | Some a => index (sections a) (currentSectionIndex st)
  | None => None
  end.

Definition currentQuestion (st : PageState) : option Question :=
  match currentSection st with
  | Some section => index (questions section) (currentQuestionIndex st)
  | None => None
  end.

(** *** Submission *)

(** [handleSubmit]: awaits the submission collaborator, then leaves the
    page; a rejection is logged.  No state cell is written. *)
Definition handleSubmit (submitted : Settled) : list Effect :=
  SubmitAssessment linkId ::
  match submitted with
  | Fulfilled => [RouterPush "/"]
  | Rejected => [ConsoleError "Failed to submit assessment:"]
  end.

(** The [disabled] attribute of the submit button. *)
Definition submitDisabled (isPending : bool) (st : PageState) : bool :=
  isPending || isTimeUp st || negb (allQuestionsAnswered st).

(** A click on the submit button: a disabled button runs no handler. *)
Definition clickSubmit (isPending : bool) (submitted : Settled)
    (st : PageState) : list Effect :=
  if submitDisabled isPending st then [] else handleSubmit submitted.

(** *** Countdown *)

(** The guard of the timer effect, and the [endTime] it computes. *)
Definition timerEndTime (st : PageState) : option Z :=
  match assessmentAttempt st, assessment with
  | Some attempt, Some a =>
      match startedAt attempt with
      | Some startTime =>
          if timed a && negb (isTimeUp st)
          then Some (startTime + duration a * 60 * 1000)
          else None
      | None => None
      end
  | _, _ => None
  end.

(** [updateTimer] reads [isTimeUp] from the render that set the effect up;
    the effect is set up anew whenever [isTimeUp] changes, so this is the
    value of the current state. *)
Definition updateTimer (endTime now : Z) (st : PageState)
    : PageState * list Effect :=
  let remaining := Z.max 0 (endTime - now) in
  let st' := setTimeRemaining (Some (ceilDiv remaining 1000)) st in
  if (remaining <=? 0) && negb (isTimeUp st)
  then (setIsTimeUp true st',
        [Toast toast_error "Time is up! Assessment time has expired."])
  else (st', []).

(** One run of [updateTimer] at clock reading [now]: the call made when
    the effect is set up and every later interval callback.  The interval
    exists only while the guard holds. *)
Definition timerTick (now : Z) (st : PageState) : PageState * list Effect :=
  match timerEndTime st with
  | Some endTime => updateTimer endTime now st
  | None => (st, [])
  end.

(** *** Start and resume *)

(** Backend shape to page shape. *)
Definition restoreAnswer (answer : BackendAnswer) : AssessmentAnswer :=
  {| assessmentEntryId := backend_assessmentEntryId answer;
     selectedChoiceIds :=
       Some match selectedChoices answer with
            | Some choices => map choice_id choices
            | None => []
            end;
     textAnswer :=
       match backend_textAnswer answer with
       | Some [] => None
       | Some text => Some text
       | None => None
       end |}.

Definition restoredAnswers (saved : list BackendAnswer)
    : gmap string AssessmentAnswer :=
  foldl (λ acc answer,
           <[backend_assessmentEntryId answer := restoreAnswer answer]> acc)
        ∅ saved.

Definition restoredMessage (n : nat) : string :=
  "Restored " +:+ pretty n +:+ " saved answer"
    +:+ (if (n =? 1)%nat then EmptyString else "s").

(** [handleStartAssessment]; [result] is [None] when the start call is
    rejected. *)
Definition handleStartAssessment (result : option AssessmentAttempt)
    (st : PageState) : PageState * list Effect :=
  match result with
  | Some attempt =>
      let st1 := setAssessmentAttempt (Some attempt) st in
      let '(st2, restored) :=
        match assessmentAnswers attempt with
        | Some ((_ :: _) as saved) =>
            (setAnswers (restoredAnswers saved) st1,
             [Toast toast_info (restoredMessage (length saved))])
        | _ => (st1, [])
        end in
      (setIsStarted true st2,
       StartAssessment linkId :: restored ++
       [Toast toast_success
          match attemptStatus attempt with
          | IN_PROGRESS => "Continuing assessment..."
          | _ => "Assessment started!"
          end])
  | None =>
      (st, [StartAssessment linkId;
            ConsoleError "Failed to start assessment:"])
  end.

(** *** Answering *)

Definition handleAnswerChange (questionId : string)
    (answer : AssessmentAnswer) (saved : Settled) (st : PageState)
    : PageState * list Effect :=
  if isTimeUp st
  then (st, [Toast toast_warning
               "Time is up! You can no longer modify your answers."])
  else
    let updatedAnswers := <[questionId := answer]> (answers st) in
    let validAnswers :=
      List.filter isValidAnswer (objectValues updatedAnswers) in
    (setAnswers updatedAnswers st,
     if (0 <? length validAnswers)%nat
     then SaveAnswers linkId validAnswers ::
          match saved with
          | Fulfilled => []
          | Rejected => [ConsoleError "Failed to auto-save answers:"]
          end
     else []).

(** *** Navigation *)

Definition navigateToQuestion (sectionIndex questionIndex : Z)
    (st : PageState) : PageState * list Effect :=
  if isTimeUp st
  then (st, [Toast toast_warning
               "Time is up! Navigation is no longer available."])
  else (setCurrentQuestionIndex questionIndex
          (setCurrentSectionIndex sectionIndex st), []).

Definition handleNext (st : PageState) : PageState :=
  match currentSection st with
  | None => st
  | Some section =>
      if isTimeUp st then st
      else if currentQuestionIndex st
              <? Z.of_nat (length (questions section)) - 1
      then setCurrentQuestionIndex (currentQuestionIndex st + 1) st
      else if currentSectionIndex st
              <? match assessment with
                 | Some a => Z.of_nat (length (sections a))
                 | None => 0
                 end - 1
      then setCurrentQuestionIndex 0
             (setCurrentSectionIndex (currentSectionIndex st + 1) st)
      else st
  end.

(** [handlePrevious].  Reading [.questions] of a missing previous section
    throws, after the section index has been written. *)
Definition handlePrevious (st : PageState) : Completion :=
  if isTimeUp st then Returns st
  else if 0 <? currentQuestionIndex st
  then Returns (setCurrentQuestionIndex (currentQuestionIndex st - 1) st)
  else if 0 <? currentSectionIndex st
  then
    let st' := setCurrentSectionIndex (currentSectionIndex st - 1) st in
    match assessment with
    | None => Returns (setCurrentQuestionIndex (1 - 1) st')
    | Some a =>
        match index (sections a) (currentSectionIndex st - 1) with
        | None => Throws st'
        | Some previous =>
            let n := length (questions previous) in
            Returns (setCurrentQuestionIndex
                       ((if (n =? 0)%nat then 1 else Z.of_nat n) - 1) st')
        end
    end
  else Returns st.

(** *** Sessions as event sequences *)

Inductive Event :=
| Start (result : option AssessmentAttempt)
| Tick (now : Z)
| Answer (questionId : string) (answer : AssessmentAnswer) (saved : Settled)
| JumpTo (sectionIndex questionIndex : Z)
| Next
| Previous
| Submit (isPending : bool) (submitted : Settled).

Definition step (st : PageState) (e : Event) : PageState * list Effect :=
  match e with
  | Start result => handleStartAssessment result st
  | Tick now => timerTick now st
  | Answer questionId answer saved =>
      handleAnswerChange questionId answer saved st
  | JumpTo sectionIndex questionIndex =>
      navigateToQuestion sectionIndex questionIndex st
  | Next => (handleNext st, [])
  | Previous => (stateOf (handlePrevious st), [])
  | Submit isPending submitted => (st, clickSubmit isPending submitted st)
  end.

Fixpoint run (st : PageState) (es : list Event) : PageState * list Effect :=
  match es with
  | [] => (st, [])
  | e :: es' =>
      let '(st1, out1) := step st e in
      let '(st2, out2) := run st1 es' in
      (st2, out1 ++ out2)
  end.

End Page.

(** ** Observations on states and effect lists *)

(** The answers handed to the persistence collaborator by a list of
    effects. *)
Definition savedAnswers (out : list Effect) : list AssessmentAnswer :=
  flat_map (λ e, match e with SaveAnswers _ payload => payload | _ => [] end)
           out.

Definition isSaveCall (e : Effect) : bool :=
  match e with SaveAnswers _ _ => true | _ => false end.

Definition isSubmitCall (e : Effect) : bool :=
  match e with SubmitAssessment _ => true | _ => false end.

Definition isToast (e : Effect) : bool :=
  match e with Toast _ _ => true | _ => false end.

(** Some collaborator for submission was contacted. *)
Definition submissionInvoked (out : list Effect) : bool := existsb isSubmitCall out.

(** Some notice was shown to the trainee. *)
Definition noticeShown (out : list Effect) : bool := existsb isToast out.

(** The identifiers of all questions of an assessment, in document order. *)
Definition questionIds (a : Assessment) : list string :=
  flat_map (λ section, map question_id (questions section)) (sections a).

(** The stored answers that pass the auto-save filter. *)
Definition completeAnswers (store : gmap string AssessmentAnswer)
    : gmap string AssessmentAnswer :=
  filter (λ kv, isValidAnswer kv.2 = true) store.

(** Every question of the assessment has a stored answer that passes the
    filter: the submission gate as the specification words it. *)
Definition everyQuestionComplete (a : Assessment) (st : PageState) : bool :=
  forallb (λ q, match answers st !! q with
                | Some ans => isValidAnswer ans
                | None => false
                end)
          (questionIds a).

(** The cursor designates a question of the assessment. *)
Definition cursorInBounds (a : Assessment) (st : PageState) : Prop :=
  0 <= currentSectionIndex st < Z.of_nat (length (sections a)) ∧
  ∃ section,
    index (sections a) (currentSectionIndex st) = Some section ∧
    0 <= currentQuestionIndex st < Z.of_nat (length (questions section)).

(** At least one section, and no section without questions. *)
Definition populated (a : Assessment) : Prop :=
  sections a ≠ [] ∧ Forall (λ section, questions section ≠ []) (sections a).

(** A jump whose target is a question of the assessment; other events carry
    no position. *)
Definition targetInRange (a : Assessment) (e : Event) : Prop :=
  match e with
  | JumpTo sectionIndex questionIndex =>
      ∃ section,
        index (sections a) sectionIndex = Some section ∧
        0 <= questionIndex < Z.of_nat (length (questions section))
  | _ => True
  end.

(** The position part of a state. *)
Definition cursor (st : PageState) : Z * Z :=
  (currentSectionIndex st, currentQuestionIndex st).

(** A sequence of [setAnswer] calls as page events. *)
Definition answerEvents (calls : list (string * AssessmentAnswer * Settled))
    : list Event :=
  map (λ c, Answer c.1.1 c.1.2 c.2) calls.

(** The store after a sequence of [setAnswer] calls, each a full replace. *)
Definition storeAfter (store : gmap string AssessmentAnswer)
    (calls : list (string * AssessmentAnswer * Settled))
    : gmap string AssessmentAnswer :=
  foldl (λ m c, <[c.1.1 := c.1.2]> m) store calls.

(** Answer edits and the three navigation actions. *)
Definition isEditOrNavigation (e : Event) : bool :=
  match e with
  | Answer _ _ _ | JumpTo _ _ | Next | Previous => true
  | _ => false
  end.

(** ** Sample data *)

Definition blank : JsString.t := JsString.of_string "   ".

Definition oneQuestion : Assessment :=
  mkAssessment "quiz" false 0 [mkSection "only" [mkQuestion "q1" TEXT]].

Definition twoSections : Assessment :=
  mkAssessment "exam" true 30
    [mkSection "first" [mkQuestion "q1" RADIO; mkQuestion "q2" TEXT];
     mkSection "second" [mkQuestion "q3" CHECKBOX]].

Definition blankAnswer : AssessmentAnswer :=
  mkAnswer "q1" (Some ["c1"]) (Some blank).

Definition choiceAnswer : AssessmentAnswer :=
  mkAnswer "q1" (Some ["c1"]) None.

Definition runningAttempt (T0 : Z) : AssessmentAttempt :=
  mkAttempt IN_PROGRESS (Some T0) None.

Definition expiredState : PageState :=
  mkState (Some (runningAttempt 0)) 0 0 ∅ true (Some 0) true.

(** ** What the page renders *)

(** The five returns of the component, in the order they are tested. *)
Inductive Screen :=
| LoadingScreen
| InvalidLinkScreen
| PreAssessmentScreen
| TimeUpScreen
| InProgressScreen.

Section Rendering.

Variable linkId : string.
Variable assessment : option Assessment.

(** The link validity query: still loading, the truthiness of
    [assessmentLink?.valid], and whether the query reported an error. *)
Variables checkingValidity isValid validityError : bool.

Definition isExpired : bool := negb isValid && validityError.

Definition screen (st : PageState) : Screen :=
  if checkingValidity then LoadingScreen
  else if negb isValid || isExpired then InvalidLinkScreen
  else if negb (isStarted st) then PreAssessmentScreen
  else if isTimeUp st then TimeUpScreen
  else InProgressScreen.

Definition onScreen (sc : Screen) (st : PageState) : bool :=
  match screen st, sc with
  | LoadingScreen, LoadingScreen
  | InvalidLinkScreen, InvalidLinkScreen
  | PreAssessmentScreen, PreAssessmentScreen
  | TimeUpScreen, TimeUpScreen
  | InProgressScreen, InProgressScreen => true
  | _, _ => false
  end.

(** [currentSection && currentQuestion]: the question card and the three
    buttons below it are rendered only then. *)
Definition questionPanelShown (st : PageState) : bool :=
  match currentSection assessment st, currentQuestion assessment st with
  | Some _, Some _ => true
  | _, _ => false
  end.

(** The [disabled] attribute of the previous button. *)
Definition previousDisabled (st : PageState) : bool :=
  ((currentSectionIndex st =? 0) && (currentQuestionIndex st =? 0))
  || isTimeUp st.

(** The condition under which the next button is rendered. *)
Definition nextShown (st : PageState) : bool :=
  negb ((currentSectionIndex st
         =? match assessment with
            | Some a => Z.of_nat (length (sections a))
            | None => 0
            end - 1)
        && (currentQuestionIndex st
            =? match currentSection assessment st with
               | Some section => Z.of_nat (length (questions section))
               | None => 0
               end - 1)).


(** The entries of the sidebar: one per section and question, carrying the
    two indices its click handler passes to [navigateToQuestion]. *)
Definition sidebarItems : list (nat * nat * Question) :=
  match assessment with
  | Some a =>
      concat (imap (λ sectionIndex section,
                      imap (λ questionIndex question,
                              (sectionIndex, questionIndex, question))
                           (questions section))
                   (sections a))
  | None => []
  end.

(** Whether the sidebar has an entry with these two indices. *)
Definition sidebarHas (sectionIndex questionIndex : nat) : bool :=
  existsb (λ item, (item.1.1 =? sectionIndex)%nat
                   && (item.1.2 =? questionIndex)%nat)
          sidebarItems.


(** What the trainee and the clock can do to the mounted page. *)
Inductive UiAction :=
| ClickStart (isPending : bool) (result : option AssessmentAttempt)
| ClockTick (now : Z)
| ChangeAnswer (answer : AssessmentAnswer) (saved : Settled)
| ClickSidebar (sectionIndex questionIndex : nat)
| ClickNext
| ClickPrevious
| ClickSubmit (isPending : bool) (submitted : Settled)
| ClickExit.

(** The handler call an action leads to: none when the control is not on
    the screen shown or is disabled.  The question card reports changes for
    [currentQuestion.id]; a sidebar entry exists for each question. *)
Definition uiEvent (st : PageState) (action : UiAction) : option Event :=
  match action with
  | ClickStart isPending result =>
      if onScreen PreAssessmentScreen st && negb isPending
      then Some (Start result) else None
  | ClockTick now => Some (Tick now)
  | ChangeAnswer answer saved =>
      if onScreen InProgressScreen st && questionPanelShown st
      then match currentQuestion assessment st with
           | Some question => Some (Answer (question_id question) answer saved)
           | None => None
           end
      else None
  | ClickSidebar sectionIndex questionIndex =>
      if onScreen InProgressScreen st
         && sidebarHas sectionIndex questionIndex
      then Some (JumpTo (Z.of_nat sectionIndex) (Z.of_nat questionIndex))
      else None
  | ClickNext =>
      if onScreen InProgressScreen st && questionPanelShown st
         && nextShown st && negb (isTimeUp st)
      then Some Next else None
  | ClickPrevious =>
      if onScreen InProgressScreen st && questionPanelShown st
         && negb (previousDisabled st)
      then Some Previous else None
  | ClickSubmit isPending submitted =>
      if onScreen InProgressScreen st && questionPanelShown st
      then Some (Submit isPending submitted) else None
  | ClickExit => None
  end.

(** The exit buttons of the invalid-link, time-up and in-progress screens
    leave for the home route. *)
Definition exitShown (st : PageState) : bool :=
  onScreen InvalidLinkScreen st || onScreen TimeUpScreen st
  || onScreen InProgressScreen st.

Definition uiStep (st : PageState) (action : UiAction)
    : PageState * list Effect :=
  match action with
  | ClickExit => (st, if exitShown st then [RouterPush "/"] else [])
  | _ =>
      match uiEvent st action with
      | Some e => step linkId assessment st e
      | None => (st, [])
      end
  end.

Fixpoint uiRun (st : PageState) (actions : list UiAction)
    : PageState * list Effect :=
  match actions with
  | [] => (st, [])
  | action :: actions' =>
      let '(st1, out1) := uiStep st action in
      let '(st2, out2) := uiRun st1 actions' in
      (st2, out1 ++ out2)
  end.

End Rendering.

(** ** Document order *)

(** All questions of an assessment, section after section. *)
Definition allQuestions (a : Assessment) : list Question :=
  flat_map questions (sections a).

(** The number of questions in the sections before a given one. *)
Definition questionsBefore (a : Assessment) (sectionIndex : Z) : nat :=
  length (flat_map questions (take (Z.to_nat sectionIndex) (sections a))).

(** The rank of the cursor's question in document order. *)
Definition position (a : Assessment) (st : PageState) : Z :=
  Z.of_nat (questionsBefore a (currentSectionIndex st))
  + currentQuestionIndex st.

(** ** Further observations *)

Definition isErrorToast (e : Effect) : bool :=
  match e with Toast toast_error _ => true | _ => false end.

(** How often the expiry notice was raised. *)
Definition expiryNotices (out : list Effect) : nat :=
  length (List.filter isErrorToast out).

Definition isCollaboratorCall (e : Effect) : bool :=
  match e with
  | StartAssessment _ | SaveAnswers _ _ | SubmitAssessment _ => true
  | _ => false
  end.

Definition isStartCall (e : Effect) : bool :=
  match e with StartAssessment _ => true | _ => false end.

(** The start collaborator was contacted. *)
Definition startInvoked (out : list Effect) : bool := existsb isStartCall out.


Definition saveCalls (out : list Effect) : nat :=
  length (List.filter isSaveCall out).

(** A start result whose saved answers all belong to questions of the
    assessment. *)
Definition resultWithin (a : Assessment) (action : UiAction) : Prop :=
  match action with
  | ClickStart _ (Some attempt) =>
      match assessmentAnswers attempt with
      | Some saved =>
          Forall (λ answer, backend_assessmentEntryId answer ∈ questionIds a)
                 saved
      | None => True
      end
  | _ => True
  end.

(** * Properties *)

(** ** Dictionary objects *)

Section ObjectLemmas.
Context {A : Type}.
Implicit Types (o : gmap string A) (p : A → bool).

Lemma elem_of_objectValues o x :
  x ∈ objectValues o ↔ ∃ k, o !! k = Some x.
Proof.
  unfold objectValues. rewrite list_elem_of_fmap. split.
  - intros [[k y] [-> Hin]]. exists k. by apply elem_of_map_to_list.
  - intros [k Hk]. exists (k, x). split; [done|].
    by apply elem_of_map_to_list.
Qed.

Lemma objectValues_empty : objectValues (∅ : gmap string A) = [].
Proof. unfold objectValues. by rewrite map_to_list_empty. Qed.

Lemma objectValues_insert_fresh o k x :
  o !! k = None → objectValues (<[k:=x]> o) ≡ₚ x :: objectValues o.
Proof.
  intros Hk. unfold objectValues.
  by rewrite (map_to_list_insert o k x Hk).
Qed.

Lemma filter_bool_Permutation p (l1 l2 : list A) :
  l1 ≡ₚ l2 → List.filter p l1 ≡ₚ List.filter p l2.
Proof.
  induction 1 as [|x l1 l2 _ IH|x y l|l1 l2 l3 _ IH1 _ IH2]; simpl.
  - done.
  - destruct (p x); [by f_equiv | done].
  - destruct (p x), (p y); try done. apply perm_swap.
  - by etrans.
Qed.

(** Filtering the values of an object is taking the values of the
    filtered object. *)
Lemma filter_objectValues p o :
  List.filter p (objectValues o)
  ≡ₚ objectValues (filter (λ kv, p kv.2 = true) o).
Proof.
  induction o as [|k x o Hk IH] using map_ind.
  - by rewrite map_filter_empty, !objectValues_empty.
  - rewrite (filter_bool_Permutation p _ _ (objectValues_insert_fresh o k x Hk)).
    simpl. destruct (p x) eqn:Hp.
    + rewrite map_filter_insert_True by done.
      rewrite objectValues_insert_fresh.
      * by f_equiv.
      * apply map_lookup_filter_None. by left.
    + rewrite map_filter_insert_not'; [done| |].
      * simpl. congruence.
      * intros y. congruence.
Qed.

End ObjectLemmas.

(** ** Trimming *)

Lemma trimStart_all_space s :
  forallb JsString.isWhiteSpace s = true → JsString.trimStart s = [].
Proof.
  induction s as [|c s IH]; simpl; [done|].
  intros [Hc Hs]%andb_prop. rewrite Hc. auto.
Qed.

Lemma trim_all_space s :
  forallb JsString.isWhiteSpace s = true → JsString.trim s = [].
Proof.
  intros H. unfold JsString.trim. by rewrite (trimStart_all_space s H).
Qed.

(** ** The completeness rule *)

Lemma isValidAnswer_text ans text :
  textAnswer ans = Some text →
  isValidAnswer ans = (0 <? length (JsString.trim text))%nat.
Proof. intros H. unfold isValidAnswer. by rewrite H. Qed.

(** ** Auto-save *)

Lemma savedAnswers_handleAnswerChange linkId questionId answer saved st :
  isTimeUp st = false →
  savedAnswers (handleAnswerChange linkId questionId answer saved st).2
  = List.filter isValidAnswer
      (objectValues (<[questionId := answer]> (answers st))).
Proof.
  intros Hup. unfold handleAnswerChange. rewrite Hup. simpl.
  destruct (List.filter _ _) as [|v vs] eqn:Hf; simpl; [done|].
  destruct saved; simpl; by rewrite app_nil_r.
Qed.

Lemma answers_handleAnswerChange linkId questionId answer saved st :
  isTimeUp st = false →
  answers (handleAnswerChange linkId questionId answer saved st).1
  = <[questionId := answer]> (answers st).
Proof. intros Hup. unfold handleAnswerChange. by rewrite Hup. Qed.

Lemma handleAnswerChange_expired linkId questionId answer saved st :
  isTimeUp st = true →
  handleAnswerChange linkId questionId answer saved st
  = (st, [Toast toast_warning
            "Time is up! You can no longer modify your answers."]).
Proof. intros Hup. unfold handleAnswerChange. by rewrite Hup. Qed.

Lemma isTimeUp_handleAnswerChange linkId questionId answer saved st :
  isTimeUp (handleAnswerChange linkId questionId answer saved st).1
  = isTimeUp st.
Proof. unfold handleAnswerChange. by destruct (isTimeUp st) eqn:E. Qed.

Lemma isValidAnswer_true_iff ans :
  isValidAnswer ans = true ↔
  match textAnswer ans with
  | Some text => length (JsString.trim text) ≠ 0%nat
  | None => ∃ ids, selectedChoiceIds ans = Some ids ∧ ids ≠ []
  end.
Proof.
  unfold isValidAnswer. destruct (textAnswer ans) as [text|].
  - rewrite Nat.ltb_lt. lia.
  - destruct (selectedChoiceIds ans) as [ids|].
    + rewrite Nat.ltb_lt. split.
      * intros Hlen. exists ids. split; [done|]. intros ->. simpl in Hlen. lia.
      * intros (ids' & [= <-] & Hne). destruct ids; [done | simpl; lia].
    + split; [done|]. by intros (ids & ? & _).
Qed.

(** C10: in the auto-save filter an answer whose [textAnswer] is present
    (the empty string included) is judged by its trimmed text alone,
    whatever [selectedChoiceIds] holds; when the trimmed text is empty, as
    for a text of white space only, the answer is incomplete and no
    auto-save ever carries it, even with choices selected. *)
Theorem text_answer_decides_completeness
    (ans : AssessmentAnswer) (text : JsString.t) :
  textAnswer ans = Some text →
  isValidAnswer ans = (0 <? length (JsString.trim text))%nat
  ∧ (∀ ids, isValidAnswer (mkAnswer (assessmentEntryId ans) ids (Some text))
            = isValidAnswer ans)
  ∧ (forallb JsString.isWhiteSpace text = true → isValidAnswer ans = false)
  ∧ (JsString.trim text = [] →
     isValidAnswer ans = false
     ∧ ∀ linkId questionId answer saved st,
         ans ∉ savedAnswers
                 (handleAnswerChange linkId questionId answer saved st).2).
Proof.
  intros Htext. pose proof (isValidAnswer_text ans text Htext) as Hv.
  split; [done|]. split; [|split].
  - intros ids. by rewrite Hv.
  - intros Hspace. by rewrite Hv, (trim_all_space text Hspace).
  - intros Htrim. rewrite Htrim in Hv. change (isValidAnswer ans = false) in Hv.
    split; [done|].
    intros linkId questionId answer saved st Hin.
    destruct (isTimeUp st) eqn:Hup.
    + rewrite handleAnswerChange_expired in Hin by done. simpl in Hin.
      by apply elem_of_nil in Hin.
    + rewrite savedAnswers_handleAnswerChange in Hin by done.
      apply list_elem_of_In, filter_In in Hin as [_ Hok]. congruence.
Qed.

Lemma text_answer_decides_completeness_witness :
  textAnswer blankAnswer = Some blank
  ∧ JsString.trim blank = []
  ∧ selectedChoiceIds blankAnswer = Some ["c1"]
  ∧ isValidAnswer blankAnswer = false
  ∧ blankAnswer ∉ savedAnswers
      (handleAnswerChange "link" "q1" blankAnswer Fulfilled initialState).2.
Proof.
  destruct (text_answer_decides_completeness blankAnswer blank eq_refl)
    as (_ & _ & _ & Hblank).
  destruct (Hblank eq_refl) as [Hno Hnever].
  do 3 (split; [reflexivity|]).
  split; [exact Hno | apply Hnever].
Defined.

(** C3: an answer edit made while time is not up replaces the store entry
    of that question and leaves the others alone; the answers handed to
    [saveAnswers] are exactly the stored answers that are complete, an
    answer being complete when its trimmed text is non-empty if it carries
    text and when its list of selected choices is non-empty otherwise; the
    same edit made a second time stores and sends the same. *)
Theorem answer_edit_saves_complete_subset
    (linkId questionId : string) (answer : AssessmentAnswer) (saved : Settled)
    (st : PageState) :
  isTimeUp st = false →
  let st' := (handleAnswerChange linkId questionId answer saved st).1 in
  let out := (handleAnswerChange linkId questionId answer saved st).2 in
  answers st' !! questionId = Some answer
  ∧ (∀ k, k ≠ questionId → answers st' !! k = answers st !! k)
  ∧ savedAnswers out ≡ₚ objectValues (completeAnswers (answers st'))
  ∧ (∀ ans, ans ∈ savedAnswers out ↔
            (∃ k, answers st' !! k = Some ans) ∧ isValidAnswer ans = true)
  ∧ (∀ l payload, SaveAnswers l payload ∈ out →
                  l = linkId ∧ payload = savedAnswers out)
  ∧ (savedAnswers out = [] ↔ out = [])
  ∧ (∀ ans, isValidAnswer ans = true ↔
            match textAnswer ans with
            | Some text => length (JsString.trim text) ≠ 0%nat
            | None => ∃ ids, selectedChoiceIds ans = Some ids ∧ ids ≠ []
            end)
  ∧ (∀ saved',
       let again := handleAnswerChange linkId questionId answer saved' st' in
       answers again.1 = answers st'
       ∧ savedAnswers again.2 = savedAnswers out).
Proof.
  intros Hup st' out.
  assert (Hst' : answers st' = <[questionId := answer]> (answers st))
    by by apply answers_handleAnswerChange.
  assert (Hout : savedAnswers out
                 = List.filter isValidAnswer (objectValues (answers st'))).
  { rewrite Hst'. by apply savedAnswers_handleAnswerChange. }
  assert (Hup' : isTimeUp st' = false).
  { unfold st'. by rewrite isTimeUp_handleAnswerChange. }
  split; [| split; [| split; [| split; [| split; [| split; [| split]]]]]].
  - rewrite Hst'. apply lookup_insert_eq.
  - intros k Hk. rewrite Hst'. by apply lookup_insert_ne.
  - rewrite Hout. apply filter_objectValues.
  - intros ans. rewrite Hout, list_elem_of_In, filter_In, <- list_elem_of_In.
    by rewrite elem_of_objectValues.
  - intros l payload Hin. subst out. unfold handleAnswerChange in *.
    rewrite Hup in *. simpl in *.
    destruct (List.filter _ _) as [|v vs]; simpl in Hin.
    + by apply elem_of_nil in Hin.
    + destruct saved; simpl in *; rewrite app_nil_r;
        repeat (apply elem_of_cons in Hin as [Hin|Hin]);
        try (by apply elem_of_nil in Hin); try discriminate;
        by injection Hin as -> ->.
  - clear Hout. subst out. unfold handleAnswerChange. rewrite Hup. simpl.
    destruct (List.filter _ _) as [|v vs]; simpl; [done|].
    split; intros; discriminate.
  - apply isValidAnswer_true_iff.
  - intros saved'. simpl. split.
    + rewrite answers_handleAnswerChange by done.
      rewrite Hst'. apply insert_insert_eq.
    + rewrite savedAnswers_handleAnswerChange by done.
      rewrite Hout, Hst'. by rewrite insert_insert_eq.
Qed.

Lemma answer_edit_saves_complete_subset_witness :
  isTimeUp initialState = false
  ∧ answers (handleAnswerChange "link" "q1" choiceAnswer Rejected
                                initialState).1 !! "q1" = Some choiceAnswer
  ∧ savedAnswers (handleAnswerChange "link" "q1" choiceAnswer Rejected
                                     initialState).2
    ≡ₚ objectValues (completeAnswers {[ "q1" := choiceAnswer ]}).
Proof.
  destruct (answer_edit_saves_complete_subset
              "link" "q1" choiceAnswer Rejected initialState eq_refl)
    as (Hstored & _ & Hsent & _).
  split; [reflexivity|]. split; [exact Hstored | exact Hsent].
Defined.

(** C9: when the auto-save call of an answer edit fails, the failure is
    only logged: the store holds the new answer, the state is the one a
    successful save leaves (the edit applied, every other cell untouched),
    nothing is shown to the trainee, and the next edit is accepted. *)
Theorem save_failure_is_swallowed
    (linkId questionId : string) (answer : AssessmentAnswer) (st : PageState) :
  isTimeUp st = false →
  let failed := handleAnswerChange linkId questionId answer Rejected st in
  answers failed.1 !! questionId = Some answer
  ∧ failed.1 = (handleAnswerChange linkId questionId answer Fulfilled st).1
  ∧ failed.1 = setAnswers (<[questionId := answer]> (answers st)) st
  ∧ noticeShown failed.2 = false
  ∧ (∀ e, e ∈ failed.2 →
          isSaveCall e = true ∨ e = ConsoleError "Failed to auto-save answers:")
  ∧ isTimeUp failed.1 = false
  ∧ (∀ questionId' answer' saved',
       answers (handleAnswerChange linkId questionId' answer' saved' failed.1).1
         !! questionId' = Some answer').
Proof.
  intros Hup failed.
  assert (Hst : failed.1 = setAnswers (<[questionId := answer]> (answers st)) st).
  { unfold failed, handleAnswerChange. by rewrite Hup. }
  assert (Hup' : isTimeUp failed.1 = false) by by rewrite Hst.
  split; [| split; [| split; [| split; [| split; [| split]]]]].
  - rewrite Hst. apply lookup_insert_eq.
  - rewrite Hst. unfold handleAnswerChange. by rewrite Hup.
  - exact Hst.
  - unfold failed, handleAnswerChange. rewrite Hup. simpl.
    by destruct (List.filter _ _).
  - intros e. unfold failed, handleAnswerChange. rewrite Hup. simpl.
    destruct (List.filter _ _) as [|v vs]; simpl.
    + by intros ?%elem_of_nil.
    + intros [->|[->|?%elem_of_nil]%elem_of_cons]%elem_of_cons; auto.
  - exact Hup'.
  - intros questionId' answer' saved'.
    rewrite answers_handleAnswerChange by done. apply lookup_insert_eq.
Qed.

Lemma save_failure_is_swallowed_witness :
  isTimeUp initialState = false
  ∧ answers (handleAnswerChange "link" "q1" choiceAnswer Rejected initialState).1
      !! "q1" = Some choiceAnswer
  ∧ ConsoleError "Failed to auto-save answers:"
      ∈ (handleAnswerChange "link" "q1" choiceAnswer Rejected initialState).2.
Proof.
  split; [reflexivity|]. split.
  - exact (proj1 (save_failure_is_swallowed
                    "link" "q1" choiceAnswer initialState eq_refl)).
  - vm_compute. apply list_elem_of_further, list_elem_of_here.
Defined.

(** ** Resuming an attempt *)

Lemma restoredAnswers_snoc saved answer :
  restoredAnswers (saved ++ [answer])
  = <[backend_assessmentEntryId answer := restoreAnswer answer]>
      (restoredAnswers saved).
Proof. unfold restoredAnswers. by rewrite foldl_app. Qed.

Lemma restoredAnswers_is_Some saved k :
  is_Some (restoredAnswers saved !! k)
  ↔ k ∈ map backend_assessmentEntryId saved.
Proof.
  induction saved as [|answer saved IH] using rev_ind.
  - unfold restoredAnswers. simpl. rewrite lookup_empty.
    split; [by intros [? ?] | by intros ?%elem_of_nil].
  - rewrite restoredAnswers_snoc, map_app, elem_of_app. simpl.
    rewrite list_elem_of_singleton, lookup_insert_is_Some, IH.
    destruct (decide (backend_assessmentEntryId answer = k)) as [->|Hk].
    + split; auto.
    + split; [intros [?|[_ ?]]; [done | by left] | intros [?|?]; [|done]].
      right. by split.
Qed.

Lemma restoredAnswers_last before answer after :
  backend_assessmentEntryId answer ∉ map backend_assessmentEntryId after →
  restoredAnswers (before ++ answer :: after)
    !! backend_assessmentEntryId answer
  = Some (restoreAnswer answer).
Proof.
  induction after as [|later after IH] using rev_ind; intros Hlast.
  - rewrite restoredAnswers_snoc. apply lookup_insert_eq.
  - rewrite map_app, elem_of_app in Hlast. simpl in Hlast.
    rewrite list_elem_of_singleton in Hlast.
    replace (before ++ answer :: after ++ [later])
      with ((before ++ answer :: after) ++ [later])
      by by rewrite <- app_assoc.
    rewrite restoredAnswers_snoc, lookup_insert_ne by naive_solver.
    apply IH. naive_solver.
Qed.

Lemma answers_handleStartAssessment_resume linkId attempt saved st :
  assessmentAnswers attempt = Some saved → saved ≠ [] →
  answers (handleStartAssessment linkId (Some attempt) st).1
  = restoredAnswers saved.
Proof.
  intros Hsaved Hne. unfold handleStartAssessment. rewrite Hsaved.
  by destruct saved.
Qed.

(** C8: when the start call returns saved answers in the backend shape,
    the store is seeded with one entry per question id, each translated to
    the page shape: the ids of the selected choice objects become
    [selectedChoiceIds] (so [{id: "c1", ...}] gives ["c1"]) and a saved
    answer without [selectedChoices] gives the empty list.  The entry of a
    question is the translation of its last saved answer. *)
Theorem resume_seeds_selected_choice_ids
    (linkId : string) (attempt : AssessmentAttempt)
    (before after : list BackendAnswer) (answer : BackendAnswer)
    (st : PageState) :
  assessmentAnswers attempt = Some (before ++ answer :: after) →
  backend_assessmentEntryId answer ∉ map backend_assessmentEntryId after →
  let st' := (handleStartAssessment linkId (Some attempt) st).1 in
  (∀ k, is_Some (answers st' !! k)
        ↔ k ∈ map backend_assessmentEntryId (before ++ answer :: after))
  ∧ ∃ seeded,
      answers st' !! backend_assessmentEntryId answer = Some seeded
      ∧ assessmentEntryId seeded = backend_assessmentEntryId answer
      ∧ (∀ choices, selectedChoices answer = Some choices →
                    selectedChoiceIds seeded = Some (map choice_id choices))
      ∧ (∀ c, selectedChoices answer = Some [c] → choice_id c = "c1" →
              selectedChoiceIds seeded = Some ["c1"])
      ∧ (selectedChoices answer = None → selectedChoiceIds seeded = Some []).
Proof.
  intros Hsaved Hlast st'.
  assert (Hst' : answers st' = restoredAnswers (before ++ answer :: after)).
  { apply answers_handleStartAssessment_resume; [done|]. by destruct before. }
  split.
  - intros k. rewrite Hst'. apply restoredAnswers_is_Some.
  - exists (restoreAnswer answer). rewrite Hst'.
    split; [by apply restoredAnswers_last|]. split; [done|].
    unfold restoreAnswer. simpl. split; [|split].
    + by intros choices ->.
    + by intros c -> <-.
    + by intros ->.
Qed.

Lemma resume_seeds_selected_choice_ids_witness :
  let saved :=
    mkBackendAnswer "q1" (Some [mkChoice "c1" "first" None (Some true)]) None in
  let attempt := mkAttempt IN_PROGRESS (Some 0) (Some [saved]) in
  assessmentAnswers attempt = Some ([] ++ saved :: [])
  ∧ ("q1" ∉ map backend_assessmentEntryId [])
  ∧ (∃ seeded,
      answers (handleStartAssessment "link" (Some attempt) initialState).1
        !! "q1" = Some seeded
      ∧ selectedChoiceIds seeded = Some ["c1"]).
Proof.
  intros saved attempt.
  assert (Hlast : backend_assessmentEntryId saved
                  ∉ map backend_assessmentEntryId []) by apply not_elem_of_nil.
  split; [reflexivity|]. split; [exact Hlast|].
  destruct (resume_seeds_selected_choice_ids
              "link" attempt [] [] saved initialState eq_refl Hlast)
    as (_ & seeded & Hlook & _ & _ & Hc1 & _).
  exists seeded. split; [exact Hlook|].
  exact (Hc1 _ eq_refl eq_refl).
Defined.

(** ** Countdown *)

Lemma ceilDiv_spec a b :
  0 < b → b * (ceilDiv a b - 1) < a <= b * ceilDiv a b.
Proof.
  intros Hb. unfold ceilDiv.
  pose proof (Z.mul_div_le (- a) b Hb).
  pose proof (Z.mul_succ_div_gt (- a) b Hb).
  lia.
Qed.

Lemma ceilDiv_0 b : ceilDiv 0 b = 0.
Proof. reflexivity. Qed.

Lemma timerEndTime_armed a attempt T0 st :
  timed a = true → assessmentAttempt st = Some attempt →
  startedAt attempt = Some T0 → isTimeUp st = false →
  timerEndTime (Some a) st = Some (T0 + duration a * 60 * 1000).
Proof.
  intros Htimed Hattempt Hstart Hup. unfold timerEndTime.
  by rewrite Hattempt, Hstart, Htimed, Hup.
Qed.

Lemma updateTimer_timeRemaining endTime now st :
  timeRemaining (updateTimer endTime now st).1
  = Some (ceilDiv (Z.max 0 (endTime - now)) 1000).
Proof. unfold updateTimer. by destruct (_ && _). Qed.

Lemma updateTimer_isTimeUp endTime now st :
  isTimeUp st = false →
  (isTimeUp (updateTimer endTime now st).1 = true ↔ endTime <= now).
Proof.
  intros Hup. unfold updateTimer. rewrite Hup. simpl. rewrite andb_true_r.
  destruct (Z.leb_spec (Z.max 0 (endTime - now)) 0); simpl; rewrite ?Hup; split;
    intros; try done; lia.
Qed.

(** C4: for a timed assessment whose attempt carries [startedAt], the
    countdown ends at [startedAt] plus the duration in minutes converted to
    milliseconds, and a tick exposes the ceiling of the remaining
    milliseconds (never below zero) over 1000; time is up after the tick
    exactly when the end has been reached.  With a duration of 30 minutes, a
    session rebuilt 31 minutes after [startedAt] is expired by its first
    tick. *)
Theorem countdown_is_anchored_at_startedAt
    (a : Assessment) (attempt : AssessmentAttempt) (T0 now : Z)
    (st : PageState) :
  timed a = true → assessmentAttempt st = Some attempt →
  startedAt attempt = Some T0 → isTimeUp st = false →
  let endTime := T0 + duration a * 60 * 1000 in
  let remaining := Z.max 0 (endTime - now) in
  let st' := (timerTick (Some a) now st).1 in
  timerEndTime (Some a) st = Some endTime
  ∧ (∃ remainingSeconds,
       timeRemaining st' = Some remainingSeconds
       ∧ 1000 * (remainingSeconds - 1) < remaining <= 1000 * remainingSeconds)
  ∧ (isTimeUp st' = true ↔ endTime <= now)
  ∧ (duration a = 30 → now = T0 + 31 * 60 * 1000 →
     isTimeUp st' = true ∧ timeRemaining st' = Some 0
     ∧ noticeShown (timerTick (Some a) now st).2 = true).
Proof.
  intros Htimed Hattempt Hstart Hup endTime remaining st'.
  pose proof (timerEndTime_armed a attempt T0 st Htimed Hattempt Hstart Hup)
    as Harmed.
  fold endTime in Harmed.
  assert (Hst' : st' = (updateTimer endTime now st).1).
  { unfold st', timerTick. by rewrite Harmed. }
  split; [done|]. split; [|split].
  - exists (ceilDiv remaining 1000). split.
    + rewrite Hst'. apply updateTimer_timeRemaining.
    + by apply ceilDiv_spec.
  - rewrite Hst'. by apply updateTimer_isTimeUp.
  - intros Hdur Hnow.
    assert (Hover : endTime <= now) by (unfold endTime; lia).
    assert (Hrem : Z.max 0 (endTime - now) = 0) by lia.
    split; [|split].
    + rewrite Hst'. by apply updateTimer_isTimeUp.
    + rewrite Hst', updateTimer_timeRemaining, Hrem. by rewrite ceilDiv_0.
    + unfold timerTick. rewrite Harmed. unfold updateTimer.
      by rewrite Hrem, Hup.
Qed.

Lemma countdown_is_anchored_at_startedAt_witness :
  let T0 := 1700000000000 in
  let st := (handleStartAssessment "link" (Some (runningAttempt T0))
                                   initialState).1 in
  timed twoSections = true
  ∧ assessmentAttempt st = Some (runningAttempt T0)
  ∧ startedAt (runningAttempt T0) = Some T0
  ∧ isTimeUp st = false
  ∧ isTimeUp (timerTick (Some twoSections) (T0 + 31 * 60 * 1000) st).1 = true.
Proof.
  intros T0 st.
  repeat (split; [reflexivity|]).
  exact (proj1 (proj2 (proj2 (proj2
    (countdown_is_anchored_at_startedAt
       twoSections (runningAttempt T0) T0 (T0 + 31 * 60 * 1000) st
       eq_refl eq_refl eq_refl eq_refl))) eq_refl eq_refl)).
Defined.

(** ** Expiry *)

Section Expiry.
Variable linkId : string.
Variable assessment : option Assessment.

Lemma isTimeUp_handleStartAssessment result st :
  isTimeUp (handleStartAssessment linkId result st).1 = isTimeUp st.
Proof.
  unfold handleStartAssessment. destruct result as [attempt|]; [|done].
  by destruct (assessmentAnswers attempt) as [[|? ?]|].
Qed.

Lemma timerTick_expired now st :
  isTimeUp st = true → timerTick assessment now st = (st, []).
Proof.
  intros Hup. unfold timerTick, timerEndTime. rewrite Hup.
  destruct (assessmentAttempt st) as [attempt|], assessment as [a|];
    try done.
  destruct (startedAt attempt); [|done]. by rewrite andb_false_r.
Qed.

Lemma navigateToQuestion_expired sectionIndex questionIndex st :
  isTimeUp st = true →
  navigateToQuestion sectionIndex questionIndex st
  = (st, [Toast toast_warning
            "Time is up! Navigation is no longer available."]).
Proof. intros Hup. unfold navigateToQuestion. by rewrite Hup. Qed.

Lemma handleNext_expired st :
  isTimeUp st = true → handleNext assessment st = st.
Proof.
  intros Hup. unfold handleNext. rewrite Hup.
  by destruct (currentSection assessment st).
Qed.

Lemma handlePrevious_expired st :
  isTimeUp st = true → handlePrevious assessment st = Returns st.
Proof. intros Hup. unfold handlePrevious. by rewrite Hup. Qed.

Lemma step_isTimeUp st e :
  isTimeUp st = true → isTimeUp (step linkId assessment st e).1 = true.
Proof.
  intros Hup. destruct e; simpl.
  - by rewrite isTimeUp_handleStartAssessment.
  - by rewrite timerTick_expired.
  - by rewrite isTimeUp_handleAnswerChange.
  - by rewrite navigateToQuestion_expired.
  - by rewrite handleNext_expired.
  - by rewrite handlePrevious_expired.
  - done.
Qed.

Lemma run_isTimeUp es : ∀ st,
  isTimeUp st = true → isTimeUp (run linkId assessment st es).1 = true.
Proof.
  induction es as [|e es IH]; intros st Hup; simpl; [done|].
  pose proof (step_isTimeUp st e Hup) as Hstep.
  destruct (step linkId assessment st e) as [st1 out1]. simpl in Hstep.
  specialize (IH st1 Hstep).
  by destruct (run linkId assessment st1 es) as [st2 out2].
Qed.

(** C5 (as amended): once [isTimeUp] holds it holds after every further
    event and sequence of events; an answer edit or a navigation
    attempted then leaves the whole state, so the store and the cursor,
    as it was and raises no error.  The edit and the jump show a warning;
    next and previous return without any effect. *)
Theorem expiry_is_permanent_and_freezes (st : PageState) (e : Event) :
  isTimeUp st = true →
  isTimeUp (step linkId assessment st e).1 = true
  ∧ (∀ es, isTimeUp (run linkId assessment st es).1 = true)
  ∧ (isEditOrNavigation e = true →
     (step linkId assessment st e).1 = st
     ∧ answers (step linkId assessment st e).1 = answers st
     ∧ cursor (step linkId assessment st e).1 = cursor st
     ∧ handlePrevious assessment st = Returns st
     ∧ match e with
       | Answer _ _ _ | JumpTo _ _ =>
           ∃ message,
             (step linkId assessment st e).2 = [Toast toast_warning message]
       | _ => (step linkId assessment st e).2 = []
       end).
Proof.
  intros Hup. split; [by apply step_isTimeUp|].
  split; [intros es; by apply run_isTimeUp|].
  intros Hkind.
  assert (Hsame : (step linkId assessment st e).1 = st).
  { destruct e; try discriminate; simpl.
    - by rewrite handleAnswerChange_expired.
    - by rewrite navigateToQuestion_expired.
    - by apply handleNext_expired.
    - by rewrite handlePrevious_expired. }
  split; [done|]. rewrite Hsame. do 2 (split; [done|]).
  split; [by apply handlePrevious_expired|].
  destruct e; try discriminate; simpl.
  - rewrite handleAnswerChange_expired by done. by eexists.
  - rewrite navigateToQuestion_expired by done. by eexists.
  - done.
  - done.
Qed.

End Expiry.

Lemma expiry_is_permanent_and_freezes_witness :
  isTimeUp expiredState = true
  ∧ isEditOrNavigation (Answer "q1" choiceAnswer Fulfilled) = true
  ∧ answers (step "link" (Some twoSections) expiredState
                  (Answer "q1" choiceAnswer Fulfilled)).1
    = answers expiredState.
Proof.
  split; [reflexivity|]. split; [reflexivity|].
  destruct (expiry_is_permanent_and_freezes
              "link" (Some twoSections) expiredState
              (Answer "q1" choiceAnswer Fulfilled) eq_refl)
    as (_ & _ & Hfrozen).
  exact (proj1 (proj2 (Hfrozen eq_refl))).
Defined.

(** C5 as first worded asks for a notice on every blocked navigation:
    [handleNext] after expiry shows none. *)
Lemma expired_next_shows_no_notice :
  isTimeUp expiredState = true
  ∧ isEditOrNavigation Next = true
  ∧ noticeShown (step "link" (Some twoSections) expiredState Next).2 = false.
Proof. by vm_compute. Qed.

(** ** Navigation *)

Lemma index_Some {A} (xs : list A) i x :
  index xs i = Some x → 0 <= i < Z.of_nat (length xs).
Proof.
  unfold index. case_decide; [|done].
  intros Hx%lookup_lt_Some. lia.
Qed.

Lemma index_is_Some {A} (xs : list A) i :
  0 <= i < Z.of_nat (length xs) → is_Some (index xs i).
Proof.
  intros Hi. unfold index. rewrite decide_True by lia.
  apply lookup_lt_is_Some. lia.
Qed.

Lemma populated_section a i section :
  populated a → index (sections a) i = Some section →
  0 < Z.of_nat (length (questions section)).
Proof.
  intros [_ Hall] Hi. unfold index in Hi. case_decide; [|done].
  pose proof (proj1 (Forall_lookup _ _) Hall _ _ Hi) as Hne. simpl in Hne.
  destruct (questions section); [done | simpl; lia].
Qed.

Lemma cursorInBounds_cursor a st st' :
  cursor st' = cursor st → cursorInBounds a st → cursorInBounds a st'.
Proof.
  unfold cursor, cursorInBounds. intros [= Hs Hq]. by rewrite Hs, Hq.
Qed.

Lemma cursorInBounds_initial a : populated a → cursorInBounds a initialState.
Proof.
  intros Hpop. pose proof Hpop as [Hne _].
  assert (Hlen : 0 <= 0 < Z.of_nat (length (sections a))).
  { destruct (sections a); [done | simpl; lia]. }
  split; [exact Hlen|].
  destruct (index_is_Some _ _ Hlen) as [section Hsection].
  exists section. split; [exact Hsection|]. simpl.
  pose proof (populated_section a 0 section Hpop Hsection). lia.
Qed.

Section Cursor.
Variable linkId : string.
Variable a : Assessment.

Lemma handleNext_within section st :
  isTimeUp st = false →
  index (sections a) (currentSectionIndex st) = Some section →
  currentQuestionIndex st < Z.of_nat (length (questions section)) - 1 →
  handleNext (Some a) st
  = setCurrentQuestionIndex (currentQuestionIndex st + 1) st.
Proof.
  intros Hup Hsection Hq. unfold handleNext, currentSection.
  rewrite Hsection, Hup.
  by destruct (Z.ltb_spec (currentQuestionIndex st)
                          (Z.of_nat (length (questions section)) - 1)); [|lia].
Qed.

Lemma handleNext_across section st :
  isTimeUp st = false →
  index (sections a) (currentSectionIndex st) = Some section →
  Z.of_nat (length (questions section)) - 1 <= currentQuestionIndex st →
  currentSectionIndex st < Z.of_nat (length (sections a)) - 1 →
  handleNext (Some a) st
  = setCurrentQuestionIndex 0
      (setCurrentSectionIndex (currentSectionIndex st + 1) st).
Proof.
  intros Hup Hsection Hq Hs. unfold handleNext, currentSection.
  rewrite Hsection, Hup.
  destruct (Z.ltb_spec (currentQuestionIndex st)
                       (Z.of_nat (length (questions section)) - 1)); [lia|].
  by destruct (Z.ltb_spec (currentSectionIndex st)
                          (Z.of_nat (length (sections a)) - 1)); [|lia].
Qed.

Lemma handleNext_at_end section st :
  index (sections a) (currentSectionIndex st) = Some section →
  Z.of_nat (length (questions section)) - 1 <= currentQuestionIndex st →
  Z.of_nat (length (sections a)) - 1 <= currentSectionIndex st →
  handleNext (Some a) st = st.
Proof.
  intros Hsection Hq Hs. unfold handleNext, currentSection.
  rewrite Hsection. destruct (isTimeUp st); [done|].
  destruct (Z.ltb_spec (currentQuestionIndex st)
                       (Z.of_nat (length (questions section)) - 1)); [lia|].
  by destruct (Z.ltb_spec (currentSectionIndex st)
                          (Z.of_nat (length (sections a)) - 1)); [lia|].
Qed.

Lemma handlePrevious_within st :
  isTimeUp st = false → 0 < currentQuestionIndex st →
  handlePrevious (Some a) st
  = Returns (setCurrentQuestionIndex (currentQuestionIndex st - 1) st).
Proof.
  intros Hup Hq. unfold handlePrevious. rewrite Hup.
  by destruct (Z.ltb_spec 0 (currentQuestionIndex st)); [|lia].
Qed.

Lemma handlePrevious_across previous st :
  isTimeUp st = false → currentQuestionIndex st <= 0 →
  0 < currentSectionIndex st →
  index (sections a) (currentSectionIndex st - 1) = Some previous →
  questions previous ≠ [] →
  handlePrevious (Some a) st
  = Returns (setCurrentQuestionIndex
               (Z.of_nat (length (questions previous)) - 1)
               (setCurrentSectionIndex (currentSectionIndex st - 1) st)).
Proof.
  intros Hup Hq Hs Hprevious Hne. unfold handlePrevious.
  rewrite Hup, Hprevious.
  destruct (Z.ltb_spec 0 (currentQuestionIndex st)); [lia|].
  destruct (Z.ltb_spec 0 (currentSectionIndex st)); [|lia].
  by destruct (questions previous).
Qed.

Lemma handlePrevious_at_start st :
  currentQuestionIndex st <= 0 → currentSectionIndex st <= 0 →
  handlePrevious (Some a) st = Returns st.
Proof.
  intros Hq Hs. unfold handlePrevious. destruct (isTimeUp st); [done|].
  destruct (Z.ltb_spec 0 (currentQuestionIndex st)); [lia|].
  by destruct (Z.ltb_spec 0 (currentSectionIndex st)); [lia|].
Qed.

End Cursor.

(** C7: with the cursor on a question and time not up, [next] moves one
    question forward inside the section unless the cursor is on its last
    question, then to the first question of the following section if there
    is one, and otherwise changes nothing; [previous] moves one question
    back unless the cursor is on a first question, then to the last question
    of the preceding section if there is one, and otherwise changes nothing.
    So [previous] at (0,0) and [next] on the last question of the last
    section leave the state as it is. *)
Theorem next_and_previous_follow_document_order
    (a : Assessment) (section : Section_) (st : PageState) :
  isTimeUp st = false →
  index (sections a) (currentSectionIndex st) = Some section →
  0 <= currentQuestionIndex st < Z.of_nat (length (questions section)) →
  let s := currentSectionIndex st in
  let q := currentQuestionIndex st in
  let lastQuestion := Z.of_nat (length (questions section)) - 1 in
  let lastSection := Z.of_nat (length (sections a)) - 1 in
  (q ≠ lastQuestion →
   handleNext (Some a) st = setCurrentQuestionIndex (q + 1) st)
  ∧ (q = lastQuestion → s ≠ lastSection →
     handleNext (Some a) st
     = setCurrentQuestionIndex 0 (setCurrentSectionIndex (s + 1) st))
  ∧ (q = lastQuestion → s = lastSection → handleNext (Some a) st = st)
  ∧ (q ≠ 0 →
     handlePrevious (Some a) st = Returns (setCurrentQuestionIndex (q - 1) st))
  ∧ (q = 0 → s ≠ 0 →
     ∃ previous,
       index (sections a) (s - 1) = Some previous
       ∧ (questions previous ≠ [] →
          handlePrevious (Some a) st
          = Returns (setCurrentQuestionIndex
                       (Z.of_nat (length (questions previous)) - 1)
                       (setCurrentSectionIndex (s - 1) st))))
  ∧ (q = 0 → s = 0 → handlePrevious (Some a) st = Returns st).
Proof.
  intros Hup Hsection Hq s q lastQuestion lastSection.
  pose proof (index_Some _ _ _ Hsection) as Hs. fold s in Hs.
  split; [| split; [| split; [| split; [| split]]]].
  - intros Hnot. apply (handleNext_within a section); [done..|].
    unfold q, lastQuestion in *. lia.
  - intros Hlast Hmore. apply (handleNext_across a section); [done..| |].
    + unfold q, lastQuestion in *. lia.
    + unfold s, lastSection in *. lia.
  - intros Hlast Hend. apply (handleNext_at_end a section); [done| |].
    + unfold q, lastQuestion in *. lia.
    + unfold s, lastSection in *. lia.
  - intros Hnot. apply handlePrevious_within; [done|]. unfold q in *. lia.
  - intros Hfirst Hmore.
    destruct (index_is_Some (sections a) (s - 1)) as [previous Hprevious];
      [lia|].
    exists previous. split; [done|]. intros Hne.
    apply handlePrevious_across; try done.
    + unfold q in *. lia.
    + unfold s in *. lia.
  - intros Hfirst Hstart. apply handlePrevious_at_start.
    + unfold q in *. lia.
    + unfold s in *. lia.
Qed.

Lemma next_and_previous_follow_document_order_witness :
  let st := setCurrentQuestionIndex 1 initialState in
  isTimeUp st = false
  ∧ index (sections twoSections) (currentSectionIndex st)
    = Some (mkSection "first" [mkQuestion "q1" RADIO; mkQuestion "q2" TEXT])
  ∧ 0 <= currentQuestionIndex st < 2
  ∧ cursor (handleNext (Some twoSections) st) = (1, 0).
Proof.
  intros st.
  assert (Hq : 0 <= currentQuestionIndex st
               < Z.of_nat (length [mkQuestion "q1" RADIO; mkQuestion "q2" TEXT]))
    by (simpl; lia).
  split; [reflexivity|]. split; [reflexivity|]. split; [exact Hq|].
  destruct (next_and_previous_follow_document_order
              twoSections _ st eq_refl eq_refl Hq) as (_ & Hacross & _).
  rewrite Hacross; [reflexivity | reflexivity | simpl; lia].
Defined.

(** ** The cursor invariant *)

Lemma cursor_handleStartAssessment linkId result st :
  cursor (handleStartAssessment linkId result st).1 = cursor st.
Proof.
  unfold handleStartAssessment. destruct result as [attempt|]; [|done].
  by destruct (assessmentAnswers attempt) as [[|? ?]|].
Qed.

Lemma cursor_timerTick assessment now st :
  cursor (timerTick assessment now st).1 = cursor st.
Proof.
  unfold timerTick. destruct (timerEndTime assessment st); [|done].
  unfold updateTimer. by destruct (_ && _).
Qed.

Lemma cursor_handleAnswerChange linkId questionId answer saved st :
  cursor (handleAnswerChange linkId questionId answer saved st).1 = cursor st.
Proof. unfold handleAnswerChange. by destruct (isTimeUp st). Qed.

Lemma cursor_navigateToQuestion sectionIndex questionIndex st :
  isTimeUp st = false →
  cursor (navigateToQuestion sectionIndex questionIndex st).1
  = (sectionIndex, questionIndex).
Proof. intros Hup. unfold navigateToQuestion. by rewrite Hup. Qed.

Lemma handleNext_cursorInBounds a st :
  populated a → cursorInBounds a st →
  cursorInBounds a (handleNext (Some a) st).
Proof.
  intros Hpop Hin. pose proof Hin as (Hs & section & Hsection & Hq).
  destruct (isTimeUp st) eqn:Hup; [by rewrite handleNext_expired|].
  destruct (Z.lt_ge_cases (currentQuestionIndex st)
                          (Z.of_nat (length (questions section)) - 1)).
  { rewrite (handleNext_within a section) by done.
    split; [done|]. exists section. simpl. split; [done | lia]. }
  destruct (Z.lt_ge_cases (currentSectionIndex st)
                          (Z.of_nat (length (sections a)) - 1)).
  - rewrite (handleNext_across a section) by done.
    destruct (index_is_Some (sections a) (currentSectionIndex st + 1))
      as [following Hfollowing]; [lia|].
    split; [simpl; lia|]. exists following. simpl. split; [done|].
    pose proof (populated_section a _ following Hpop Hfollowing). lia.
  - by rewrite (handleNext_at_end a section).
Qed.

Lemma handlePrevious_cursorInBounds a st :
  populated a → cursorInBounds a st →
  ∃ st', handlePrevious (Some a) st = Returns st' ∧ cursorInBounds a st'.
Proof.
  intros Hpop Hin. pose proof Hin as (Hs & section & Hsection & Hq).
  destruct (isTimeUp st) eqn:Hup;
    [exists st; by rewrite handlePrevious_expired|].
  destruct (Z.lt_ge_cases 0 (currentQuestionIndex st)).
  { eexists. split; [by apply handlePrevious_within|].
    split; [done|]. exists section. simpl. split; [done | lia]. }
  destruct (Z.lt_ge_cases 0 (currentSectionIndex st)).
  - destruct (index_is_Some (sections a) (currentSectionIndex st - 1))
      as [previous Hprevious]; [lia|].
    pose proof (populated_section a _ previous Hpop Hprevious) as Hlen.
    eexists. split.
    + apply (handlePrevious_across a previous); try done; try lia.
      intros Hnil. rewrite Hnil in Hlen. simpl in Hlen. lia.
    + split; [simpl; lia|]. exists previous. simpl. split; [done | lia].
  - exists st. split; [|done]. apply handlePrevious_at_start; lia.
Qed.

Lemma step_cursorInBounds linkId a st e :
  populated a → cursorInBounds a st → targetInRange a e →
  cursorInBounds a (step linkId (Some a) st e).1.
Proof.
  intros Hpop Hin Hrange. destruct e; simpl.
  - apply (cursorInBounds_cursor a st); [apply cursor_handleStartAssessment | done].
  - apply (cursorInBounds_cursor a st); [apply cursor_timerTick | done].
  - apply (cursorInBounds_cursor a st); [apply cursor_handleAnswerChange | done].
  - destruct (isTimeUp st) eqn:Hup.
    + by rewrite navigateToQuestion_expired.
    + destruct Hrange as (section & Hsection & Hq).
      unfold navigateToQuestion. rewrite Hup. simpl.
      split; [by apply (index_Some _ _ section)|]. by exists section.
  - by apply handleNext_cursorInBounds.
  - destruct (handlePrevious_cursorInBounds a st Hpop Hin) as (st' & -> & ?).
    done.
  - done.
Qed.

Lemma run_cursorInBounds linkId a es : ∀ st,
  populated a → cursorInBounds a st → Forall (targetInRange a) es →
  cursorInBounds a (run linkId (Some a) st es).1.
Proof.
  induction es as [|e es IH]; intros st Hpop Hin Hrange; simpl; [done|].
  apply Forall_cons in Hrange as [He Hes].
  pose proof (step_cursorInBounds linkId a st e Hpop Hin He) as Hstep.
  destruct (step linkId (Some a) st e) as [st1 out1]. simpl in Hstep.
  specialize (IH st1 Hpop Hstep Hes).
  by destruct (run linkId (Some a) st1 es) as [st2 out2].
Qed.

(** C6 (as amended): in an assessment with at least one section and no
    empty section, the start position (0,0) is a question, and the cursor
    stays on a question of the assessment through every sequence of events
    whose jumps name a question of the assessment.  A jump performs no
    clamping: while time is not up it stores the two indices it is given. *)
Theorem cursor_stays_in_bounds
    (linkId : string) (a : Assessment) (st : PageState) (es : list Event) :
  populated a → cursorInBounds a st → Forall (targetInRange a) es →
  cursorInBounds a initialState
  ∧ cursorInBounds a (run linkId (Some a) st es).1
  ∧ (isTimeUp st = false →
     ∀ sectionIndex questionIndex,
       cursor (navigateToQuestion sectionIndex questionIndex st).1
       = (sectionIndex, questionIndex)).
Proof.
  intros Hpop Hin Hrange. split; [by apply cursorInBounds_initial|].
  split; [by apply run_cursorInBounds|].
  intros Hup sectionIndex questionIndex. by apply cursor_navigateToQuestion.
Qed.

Lemma populated_twoSections : populated twoSections.
Proof. split; [done|]. by repeat constructor. Qed.

Lemma cursor_stays_in_bounds_witness :
  let es := [JumpTo 1 0; Previous; Next; Next] in
  populated twoSections
  ∧ cursorInBounds twoSections initialState
  ∧ Forall (targetInRange twoSections) es
  ∧ cursorInBounds twoSections
      (run "link" (Some twoSections) initialState es).1.
Proof.
  intros es.
  pose proof populated_twoSections as Hpop.
  pose proof (cursorInBounds_initial twoSections Hpop) as Hin.
  assert (Hrange : Forall (targetInRange twoSections) es).
  { repeat constructor.
    exists (mkSection "second" [mkQuestion "q3" CHECKBOX]).
    split; [reflexivity | simpl; lia]. }
  split; [exact Hpop|]. split; [exact Hin|]. split; [exact Hrange|].
  exact (proj1 (proj2 (cursor_stays_in_bounds
                         "link" twoSections initialState es Hpop Hin Hrange))).
Defined.

(** C6 as first worded promises clamping: a jump to (5,7) in a one-question
    assessment leaves the cursor at (5,7), outside the assessment. *)
Lemma jump_out_of_range_is_not_clamped :
  let st := (step "link" (Some oneQuestion) initialState (JumpTo 5 7)).1 in
  cursorInBounds oneQuestion initialState
  ∧ cursor st = (5, 7)
  ∧ ¬ cursorInBounds oneQuestion st.
Proof.
  split; [|split].
  - split; [simpl; lia|]. eexists. split; [reflexivity | simpl; lia].
  - reflexivity.
  - intros [[_ Hs] _]. simpl in Hs. lia.
Qed.

(** ** Progress *)

Lemma totalQuestions_questionIds a :
  totalQuestions (Some a) = length (questionIds a).
Proof.
  unfold totalQuestions, questionIds.
  enough (∀ n, foldl (λ acc section, acc + length (questions section))%nat
                     n (sections a)
               = (n + length (flat_map (λ section,
                                          map question_id (questions section))
                                       (sections a)))%nat) as H by apply H.
  induction (sections a) as [|section rest IH]; intros n; simpl; [lia|].
  rewrite IH, length_app, length_map. lia.
Qed.

Lemma size_list_to_set_le (l : list string) :
  (size (list_to_set l : gset string) ≤ length l)%nat.
Proof.
  induction l as [|x l IH].
  - by rewrite list_to_set_nil, size_empty.
  - rewrite list_to_set_cons, size_union_alt, size_singleton.
    assert (Hsub : list_to_set l ∖ {[x]} ⊆ (list_to_set l : gset string))
      by apply subseteq_difference_l, reflexivity.
    apply subseteq_size in Hsub. simpl. lia.
Qed.

Lemma dom_storeAfter calls : ∀ store,
  dom (storeAfter store calls)
  = dom store ∪ list_to_set (map (λ c, c.1.1) calls).
Proof.
  induction calls as [|c calls IH]; intros store.
  - change (storeAfter store []) with store.
    change (map (λ c, c.1.1) []) with (@nil string).
    by rewrite list_to_set_nil, union_empty_r_L.
  - change (storeAfter store (c :: calls))
      with (storeAfter (<[c.1.1 := c.1.2]> store) calls).
    rewrite IH, dom_insert_L.
    change (map (λ c, c.1.1) (c :: calls))
      with (c.1.1 :: map (λ c, c.1.1) calls).
    rewrite list_to_set_cons.
    by rewrite (comm_L (∪) {[c.1.1]} (dom store)), <- (assoc_L (∪)).
Qed.

Lemma run_answerEvents linkId assessment calls : ∀ st,
  isTimeUp st = false →
  answers (run linkId assessment st (answerEvents calls)).1
  = storeAfter (answers st) calls.
Proof.
  induction calls as [|[[q ans] saved] calls IH]; intros st Hup; simpl;
    [done|].
  pose proof (answers_handleAnswerChange linkId q ans saved st Hup) as Hans.
  pose proof (isTimeUp_handleAnswerChange linkId q ans saved st) as Hup'.
  destruct (handleAnswerChange linkId q ans saved st) as [st1 out1].
  simpl in Hans, Hup'. rewrite Hup in Hup'.
  specialize (IH st1 Hup'). fold (answerEvents calls).
  destruct (run linkId assessment st1 (answerEvents calls)) as [st2 out2].
  simpl in *. by rewrite IH, Hans.
Qed.

(** C2 (as amended): after any sequence of [setAnswer] calls made while
    time is not up, the answered count shown as progress is the number of
    distinct question ids in the store, that is the ids stored before
    together with the ids the calls named, whether the stored answers are
    complete or not; when all these ids belong to questions of the
    assessment the count does not exceed the total number of questions. *)
Theorem answered_count_is_number_of_stored_ids
    (linkId : string) (assessment : option Assessment) (st : PageState)
    (calls : list (string * AssessmentAnswer * Settled)) :
  isTimeUp st = false →
  let st' := (run linkId assessment st (answerEvents calls)).1 in
  let called : gset string := list_to_set (map (λ c, c.1.1) calls) in
  answeredQuestions st' = size (dom (answers st) ∪ called)
  ∧ (answers st = ∅ → answeredQuestions st' = size called)
  ∧ (∀ a, assessment = Some a →
          dom (answers st) ⊆ list_to_set (questionIds a) →
          Forall (λ c, c.1.1 ∈ questionIds a) calls →
          (answeredQuestions st' ≤ totalQuestions assessment)%nat).
Proof.
  intros Hup st' called.
  assert (Hcount : answeredQuestions st' = size (dom (answers st) ∪ called)).
  { unfold answeredQuestions, objectKeysLength, st'.
    rewrite run_answerEvents by done.
    by rewrite <- (size_dom (D := gset string)), dom_storeAfter. }
  split; [done|]. split.
  - intros Hempty. by rewrite Hcount, Hempty, dom_empty_L, union_empty_l_L.
  - intros a -> Hstored Hcalled. rewrite Hcount, totalQuestions_questionIds.
    etrans; [|apply size_list_to_set_le].
    apply subseteq_size, union_least; [done|].
    intros q. unfold called. rewrite !elem_of_list_to_set, list_elem_of_In.
    rewrite in_map_iff. intros (c & <- & Hc%list_elem_of_In).
    by apply (proj1 (Forall_forall _ _) Hcalled).
Qed.

Lemma answered_count_is_number_of_stored_ids_witness :
  let calls := [("q1", choiceAnswer, Fulfilled); ("q3", blankAnswer, Rejected);
                ("q1", blankAnswer, Fulfilled)] in
  isTimeUp initialState = false
  ∧ answeredQuestions
      (run "link" (Some twoSections) initialState (answerEvents calls)).1
    = size (list_to_set (map (λ c, c.1.1) calls) : gset string).
Proof.
  intros calls. split; [reflexivity|].
  destruct (answered_count_is_number_of_stored_ids
              "link" (Some twoSections) initialState calls eq_refl)
    as (_ & Hfresh & _).
  exact (Hfresh eq_refl).
Defined.

(** C2 as first worded counts complete answers only: one blank text answer
    makes the answered count 1 while no stored answer is complete. *)
Lemma incomplete_answer_counts_as_answered :
  let st := (run "link" (Some oneQuestion) initialState
                 (answerEvents [("q1", blankAnswer, Fulfilled)])).1 in
  isValidAnswer blankAnswer = false
  ∧ answeredQuestions st = 1%nat
  ∧ size (completeAnswers (answers st)) = 0%nat
  ∧ answeredQuestions st ≠ size (completeAnswers (answers st)).
Proof. by vm_compute. Qed.

(** ** Submission *)

(** [handleSubmit] contacts the collaborator whatever the state is. *)
Lemma submissionInvoked_handleSubmit linkId submitted :
  submissionInvoked (handleSubmit linkId submitted) = true.
Proof. reflexivity. Qed.

Lemma submitDisabled_false_iff assessment isPending st :
  submitDisabled assessment isPending st = false
  ↔ isPending = false ∧ isTimeUp st = false
    ∧ answeredQuestions st = totalQuestions assessment
    ∧ (0 < totalQuestions assessment)%nat.
Proof.
  unfold submitDisabled, allQuestionsAnswered.
  rewrite !orb_false_iff, negb_false_iff, andb_true_iff.
  rewrite Nat.eqb_eq, Nat.ltb_lt. tauto.
Qed.

(** With distinct question ids and a store keyed by question ids, the gate
    of the submit button means an entry for every question. *)
Lemma allQuestionsAnswered_stored a st :
  NoDup (questionIds a) → questionIds a ≠ [] →
  dom (answers st) ⊆ list_to_set (questionIds a) →
  allQuestionsAnswered (Some a) st = true
  ↔ ∀ q, q ∈ questionIds a → is_Some (answers st !! q).
Proof.
  intros Hnodup Hne Hdom. unfold allQuestionsAnswered.
  rewrite andb_true_iff, Nat.eqb_eq, Nat.ltb_lt, totalQuestions_questionIds.
  unfold answeredQuestions, objectKeysLength.
  rewrite <- (size_dom (D := gset string)).
  rewrite <- (size_list_to_set (C := gset string) (questionIds a)) by done.
  split.
  - intros [Hsize _] q Hq. apply elem_of_dom.
    assert (Heq : dom (answers st) = list_to_set (questionIds a))
      by (apply set_subseteq_size_eq; [done | lia]).
    rewrite Heq. by apply elem_of_list_to_set.
  - intros Hall.
    assert (Heq : dom (answers st) = list_to_set (questionIds a)).
    { apply (anti_symm (⊆)); [done|]. intros q Hq%elem_of_list_to_set.
      by apply elem_of_dom, Hall. }
    rewrite Heq. split; [done|].
    rewrite size_list_to_set by done. destruct (questionIds a); [done|].
    simpl. lia.
Qed.

(** C1 (as amended): a click on the submit button reaches the submission
    collaborator exactly when no submission is pending, time is not up, and
    the store has as many entries as the assessment has questions, that
    number being positive; complete or not, the entries count alike.  With
    distinct question ids and a store keyed by them this means an entry for
    every question.  A click on the disabled button has no effect at all;
    [handleSubmit] itself carries no guard.  When the collaborator succeeds
    the page is left for the home route, when it fails the error is logged;
    in both cases no state cell changes. *)
Theorem submit_is_gated_by_answer_count
    (linkId : string) (assessment : option Assessment) (isPending : bool)
    (submitted : Settled) (st : PageState) :
  let out := clickSubmit linkId assessment isPending submitted st in
  (submissionInvoked out = true ↔
     isPending = false ∧ isTimeUp st = false
     ∧ answeredQuestions st = totalQuestions assessment
     ∧ (0 < totalQuestions assessment)%nat)
  ∧ (submissionInvoked out = false → out = [])
  ∧ (submissionInvoked out = true →
     out = SubmitAssessment linkId ::
           match submitted with
           | Fulfilled => [RouterPush "/"]
           | Rejected => [ConsoleError "Failed to submit assessment:"]
           end)
  ∧ (step linkId assessment st (Submit isPending submitted)).1 = st
  ∧ (∀ a, assessment = Some a → NoDup (questionIds a) →
          dom (answers st) ⊆ list_to_set (questionIds a) →
          submissionInvoked out = true →
          ∀ q, q ∈ questionIds a → is_Some (answers st !! q)).
Proof.
  intros out.
  assert (Hgate : submissionInvoked out = true
                  ↔ submitDisabled assessment isPending st = false).
  { unfold out, clickSubmit.
    destruct (submitDisabled assessment isPending st); simpl; [split|]; done. }
  split; [by rewrite Hgate, submitDisabled_false_iff|].
  split; [|split; [|split]].
  - unfold out, clickSubmit.
    by destruct (submitDisabled assessment isPending st).
  - unfold out, clickSubmit.
    by destruct (submitDisabled assessment isPending st).
  - done.
  - intros a -> Hnodup Hdom Hinvoked.
    apply Hgate, submitDisabled_false_iff in Hinvoked
      as (_ & _ & Hcount & Hpos).
    apply allQuestionsAnswered_stored; [done| |done|].
    + rewrite totalQuestions_questionIds in Hpos.
      destruct (questionIds a); [simpl in Hpos; lia | done].
    + unfold allQuestionsAnswered.
      by rewrite andb_true_iff, Nat.eqb_eq, Nat.ltb_lt.
Qed.

Lemma submit_is_gated_by_answer_count_witness :
  let st := (handleAnswerChange "link" "q1" choiceAnswer Fulfilled
                                initialState).1 in
  isTimeUp st = false
  ∧ answeredQuestions st = totalQuestions (Some oneQuestion)
  ∧ submissionInvoked
      (clickSubmit "link" (Some oneQuestion) false Fulfilled st) = true
  ∧ submissionInvoked
      (clickSubmit "link" (Some oneQuestion) false Fulfilled initialState)
    = false.
Proof.
  intros st.
  destruct (submit_is_gated_by_answer_count
              "link" (Some oneQuestion) false Fulfilled st) as (Hgate & _).
  split; [reflexivity|]. split; [reflexivity|]. split.
  - apply Hgate. repeat split; try reflexivity. simpl. lia.
  - reflexivity.
Defined.

(** C1 as first worded requires complete answers: with a blank text stored
    for the only question, and time not up, the click submits. *)
Lemma submit_accepts_incomplete_answers :
  let st := (handleAnswerChange "link" "q1" blankAnswer Fulfilled
                                initialState).1 in
  everyQuestionComplete oneQuestion st = false
  ∧ isTimeUp st = false
  ∧ clickSubmit "link" (Some oneQuestion) false Fulfilled st
    = [SubmitAssessment "link"; RouterPush "/"]
  ∧ submissionInvoked (handleSubmit "link" Fulfilled) = true.
Proof. by vm_compute. Qed.

(** * Further properties of the page *)

(** ** The countdown over time *)

Lemma ceilDiv_mono a b c : 0 < c → a <= b → ceilDiv a c <= ceilDiv b c.
Proof.
  intros Hc Hab. unfold ceilDiv.
  assert (- b / c <= - a / c) by (apply Z.div_le_mono; lia). lia.
Qed.

Lemma ceilDiv_nonneg a c : 0 < c → 0 <= a → 0 <= ceilDiv a c.
Proof.
  intros Hc Ha. rewrite <- (ceilDiv_0 c). by apply ceilDiv_mono.
Qed.

Lemma ceilDiv_pos a c : 0 < c → 0 < a → 1 <= ceilDiv a c.
Proof. intros Hc Ha. pose proof (ceilDiv_spec a c Hc). nia. Qed.

(** X1: the seconds shown by the countdown are never negative, never grow
    as the clock advances, are at least one while the end lies ahead and
    are zero from the end on. *)
Theorem countdown_decreases_to_zero (endTime now1 now2 : Z) (st : PageState) :
  now1 <= now2 →
  ∃ r1 r2,
    timeRemaining (updateTimer endTime now1 st).1 = Some r1
    ∧ timeRemaining (updateTimer endTime now2 st).1 = Some r2
    ∧ 0 <= r2 <= r1
    ∧ (now2 < endTime → 1 <= r2)
    ∧ (endTime <= now2 → r2 = 0).
Proof.
  intros Hnow.
  exists (ceilDiv (Z.max 0 (endTime - now1)) 1000),
         (ceilDiv (Z.max 0 (endTime - now2)) 1000).
  rewrite !updateTimer_timeRemaining.
  split; [done|]. split; [done|]. split; [split|split].
  - apply ceilDiv_nonneg; lia.
  - apply ceilDiv_mono; lia.
  - intros Hahead. apply ceilDiv_pos; lia.
  - intros Hpast. replace (Z.max 0 (endTime - now2)) with 0 by lia.
    apply ceilDiv_0.
Qed.

Lemma countdown_decreases_to_zero_witness :
  1000 <= 2500
  ∧ ∃ r1 r2,
      timeRemaining (updateTimer 3000 1000 initialState).1 = Some r1
      ∧ timeRemaining (updateTimer 3000 2500 initialState).1 = Some r2
      ∧ 0 <= r2 <= r1
      ∧ (2500 < 3000 → 1 <= r2)
      ∧ (3000 <= 2500 → r2 = 0).
Proof.
  assert (H : 1000 <= 2500) by lia.
  split; [exact H|].
  exact (countdown_decreases_to_zero 3000 1000 2500 initialState H).
Defined.

(** ** When the expiry notice is raised *)

Lemma expiryNotices_app out1 out2 :
  expiryNotices (out1 ++ out2) = (expiryNotices out1 + expiryNotices out2)%nat.
Proof. unfold expiryNotices. by rewrite List.filter_app, length_app. Qed.

Lemma timerTick_flip assessment now st :
  isTimeUp st = false →
  expiryNotices (timerTick assessment now st).2
  = if isTimeUp (timerTick assessment now st).1 then 1%nat else 0%nat.
Proof.
  intros Hup. unfold timerTick.
  destruct (timerEndTime assessment st) as [endTime|]; simpl;
    [|by rewrite Hup].
  unfold updateTimer. rewrite Hup. destruct (_ <=? 0); simpl; [done|].
  by rewrite Hup.
Qed.

Lemma handleStartAssessment_no_expiry linkId result st :
  expiryNotices (handleStartAssessment linkId result st).2 = 0%nat.
Proof.
  unfold handleStartAssessment. destruct result as [attempt|]; [|done].
  by destruct (assessmentAnswers attempt) as [[|? ?]|].
Qed.

Lemma handleAnswerChange_no_expiry linkId questionId answer saved st :
  expiryNotices (handleAnswerChange linkId questionId answer saved st).2
  = 0%nat.
Proof.
  unfold handleAnswerChange. destruct (isTimeUp st); [done|]. simpl.
  destruct (0 <? _)%nat; [|done]. by destruct saved.
Qed.

Lemma navigateToQuestion_no_expiry sectionIndex questionIndex st :
  expiryNotices (navigateToQuestion sectionIndex questionIndex st).2 = 0%nat.
Proof. unfold navigateToQuestion. by destruct (isTimeUp st). Qed.

Lemma clickSubmit_no_expiry linkId assessment isPending submitted st :
  expiryNotices (clickSubmit linkId assessment isPending submitted st) = 0%nat.
Proof.
  unfold clickSubmit. destruct (submitDisabled _ _ _); [done|].
  by destruct submitted.
Qed.

Lemma isTimeUp_navigateToQuestion sectionIndex questionIndex st :
  isTimeUp (navigateToQuestion sectionIndex questionIndex st).1 = isTimeUp st.
Proof. unfold navigateToQuestion. by destruct (isTimeUp st) eqn:E. Qed.

Lemma isTimeUp_handleNext assessment st :
  isTimeUp (handleNext assessment st) = isTimeUp st.
Proof.
  unfold handleNext. destruct (currentSection assessment st); [|done].
  destruct (isTimeUp st) eqn:E; [done|].
  destruct (_ <? _); [by rewrite <- E|]. destruct (_ <? _); by rewrite <- E.
Qed.

Lemma isTimeUp_handlePrevious assessment st :
  isTimeUp (stateOf (handlePrevious assessment st)) = isTimeUp st.
Proof.
  unfold handlePrevious. destruct (isTimeUp st) eqn:E; [done|].
  destruct (0 <? currentQuestionIndex st); [by rewrite <- E|].
  destruct (0 <? currentSectionIndex st); [|done].
  destruct assessment as [a|]; [|by rewrite <- E].
  destruct (index _ _); by rewrite <- E.
Qed.

(** A step raises the expiry notice exactly when it turns [isTimeUp] on. *)
Lemma step_expiryNotices linkId assessment st e :
  expiryNotices (step linkId assessment st e).2
  = if negb (isTimeUp st) && isTimeUp (step linkId assessment st e).1
    then 1%nat else 0%nat.
Proof.
  destruct (isTimeUp st) eqn:Hup; simpl.
  - destruct e; simpl; try done.
    + apply handleStartAssessment_no_expiry.
    + by rewrite timerTick_expired.
    + apply handleAnswerChange_no_expiry.
    + apply navigateToQuestion_no_expiry.
    + apply clickSubmit_no_expiry.
  - destruct e; simpl.
    + by rewrite handleStartAssessment_no_expiry,
        isTimeUp_handleStartAssessment, Hup.
    + by apply timerTick_flip.
    + by rewrite handleAnswerChange_no_expiry,
        isTimeUp_handleAnswerChange, Hup.
    + by rewrite navigateToQuestion_no_expiry,
        isTimeUp_navigateToQuestion, Hup.
    + by rewrite isTimeUp_handleNext, Hup.
    + by rewrite isTimeUp_handlePrevious, Hup.
    + by rewrite clickSubmit_no_expiry, Hup.
Qed.

(** X2: over any sequence of events the expiry notice is raised once if
    [isTimeUp] turns on during the sequence and not at all otherwise; in
    particular never twice, and never in a session that is expired
    already. *)
Theorem expiry_notice_is_raised_once
    (linkId : string) (assessment : option Assessment) (es : list Event)
    (st : PageState) :
  expiryNotices (run linkId assessment st es).2
  = if negb (isTimeUp st) && isTimeUp (run linkId assessment st es).1
    then 1%nat else 0%nat.
Proof.
  revert st. induction es as [|e es IH]; intros st; simpl.
  { by destruct (isTimeUp st). }
  pose proof (step_expiryNotices linkId assessment st e) as Hstep.
  pose proof (run_isTimeUp linkId assessment es
                (step linkId assessment st e).1) as Hmono.
  pose proof (step_isTimeUp linkId assessment st e) as Hkeep.
  destruct (step linkId assessment st e) as [st1 out1]. simpl in *.
  specialize (IH st1).
  destruct (run linkId assessment st1 es) as [st2 out2]. simpl in *.
  rewrite expiryNotices_app, Hstep, IH.
  destruct (isTimeUp st) eqn:Hst, (isTimeUp st1) eqn:Hst1; simpl; try done.
  - by specialize (Hkeep eq_refl).
  - by rewrite (Hmono eq_refl).
Qed.

(** ** What only the start and the clock can change *)

(** The attempt, the started flag, the countdown and the expiry flag are
    written by the start handler and the timer alone. *)
Lemma step_session_cells linkId assessment st e :
  (∀ result, e ≠ Start result) → (∀ now, e ≠ Tick now) →
  let st' := (step linkId assessment st e).1 in
  assessmentAttempt st' = assessmentAttempt st
  ∧ isStarted st' = isStarted st
  ∧ timeRemaining st' = timeRemaining st
  ∧ isTimeUp st' = isTimeUp st.
Proof.
  intros Hstart Htick.
  destruct st as [attempt s q store started remaining up].
  destruct e; simpl.
  - by destruct (Hstart result).
  - by destruct (Htick now).
  - unfold handleAnswerChange. simpl. by destruct up.
  - unfold navigateToQuestion. simpl. by destruct up.
  - unfold handleNext. simpl. by repeat case_match.
  - unfold handlePrevious. simpl. by repeat case_match.
  - done.
Qed.

Lemma timerTick_cells assessment now st :
  let st' := (timerTick assessment now st).1 in
  assessmentAttempt st' = assessmentAttempt st
  ∧ isStarted st' = isStarted st
  ∧ (isTimeUp st' = true →
     isTimeUp st = true
     ∨ (is_Some (assessmentAttempt st)
        ∧ ∃ a, assessment = Some a ∧ timed a = true))
  ∧ (timeRemaining st' ≠ timeRemaining st →
     is_Some (assessmentAttempt st)
     ∧ ∃ a, assessment = Some a ∧ timed a = true).
Proof.
  destruct st as [attempt s q store started remaining up].
  unfold timerTick, timerEndTime, updateTimer. simpl.
  destruct attempt as [attempt|], assessment as [a|]; simpl;
    try (split; [done|]; split; [done|];
         split; [by left | by intros Hne; destruct Hne]).
  destruct (startedAt attempt) as [startTime|], (timed a) eqn:Htimed, up;
    simpl;
    try (split; [done|]; split; [done|];
         split; [by left | by intros Hne; destruct Hne]).
  destruct (_ <=? 0); simpl;
    (split; [done|]; split; [done|]; split; intros _;
     [right|]; (split; [by eexists | by exists a])).
Qed.

Lemma handleStartAssessment_cells linkId result st :
  let st' := (handleStartAssessment linkId result st).1 in
  match result with
  | Some attempt =>
      assessmentAttempt st' = Some attempt ∧ isStarted st' = true
  | None => st' = st
  end
  ∧ timeRemaining st' = timeRemaining st
  ∧ isTimeUp st' = isTimeUp st.
Proof.
  unfold handleStartAssessment. destruct result as [attempt|]; [|done].
  by destruct (assessmentAnswers attempt) as [[|? ?]|].
Qed.

(** X3: in every session that begins with the initial state, an attempt is
    held exactly when the session is started, and time is up or a countdown
    is shown only in a started session of a timed assessment.  An untimed
    assessment therefore never expires. *)
Theorem expiry_needs_a_started_timed_attempt
    (linkId : string) (assessment : option Assessment) (es : list Event) :
  let st := (run linkId assessment initialState es).1 in
  (is_Some (assessmentAttempt st) ↔ isStarted st = true)
  ∧ (isTimeUp st = true ∨ is_Some (timeRemaining st) →
     isStarted st = true ∧ ∃ a, assessment = Some a ∧ timed a = true).
Proof.
  enough (Hinv : ∀ st0,
    (is_Some (assessmentAttempt st0) ↔ isStarted st0 = true) →
    (isTimeUp st0 = true ∨ is_Some (timeRemaining st0) →
     isStarted st0 = true ∧ ∃ a, assessment = Some a ∧ timed a = true) →
    let st := (run linkId assessment st0 es).1 in
    (is_Some (assessmentAttempt st) ↔ isStarted st = true)
    ∧ (isTimeUp st = true ∨ is_Some (timeRemaining st) →
       isStarted st = true ∧ ∃ a, assessment = Some a ∧ timed a = true)).
  { apply Hinv; simpl.
    - split; [by intros [? ?] | done].
    - intros [?|[? ?]]; done. }
  induction es as [|e es IH]; intros st0 Hheld Hup; simpl; [done|].
  assert (Hstep :
    let st1 := (step linkId assessment st0 e).1 in
    (is_Some (assessmentAttempt st1) ↔ isStarted st1 = true)
    ∧ (isTimeUp st1 = true ∨ is_Some (timeRemaining st1) →
       isStarted st1 = true ∧ ∃ a, assessment = Some a ∧ timed a = true)).
  { assert (Hframe : (∀ result, e ≠ Start result) → (∀ now, e ≠ Tick now) →
      let st1 := (step linkId assessment st0 e).1 in
      (is_Some (assessmentAttempt st1) ↔ isStarted st1 = true)
      ∧ (isTimeUp st1 = true ∨ is_Some (timeRemaining st1) →
         isStarted st1 = true ∧ ∃ a, assessment = Some a ∧ timed a = true)).
    { intros Hstart Htick.
      destruct (step_session_cells linkId assessment st0 e Hstart Htick)
        as (Ha & Hs & Hr & Hu).
      cbv zeta. rewrite Ha, Hs, Hr, Hu. by split. }
    destruct e as [result|now| | | | |]; try (by apply Hframe); clear Hframe.
    - pose proof (handleStartAssessment_cells linkId result st0) as Hcells.
      simpl in *. destruct Hcells as (Hres & Hr & Hu). rewrite Hr, Hu.
      destruct result as [attempt|].
      + destruct Hres as [-> ->]. split; [done|].
        intros Hc. split; [done|]. by apply Hup.
      + rewrite Hres. by split.
    - pose proof (timerTick_cells assessment now st0) as Hcells.
      simpl in *. destruct Hcells as (Ha & Hs & Hu & Hr). rewrite Ha, Hs.
      split; [done|]. intros [Hnow|Hnow].
      + destruct (Hu Hnow) as [Hold|[Hattempt Htimed]].
        * by apply Hup; left.
        * split; [by apply Hheld | done].
      + destruct (decide (timeRemaining (timerTick assessment now st0).1
                          = timeRemaining st0)) as [Heq|Hne].
        * rewrite Heq in Hnow. by apply Hup; right.
        * destruct (Hr Hne) as [Hattempt Htimed].
          split; [by apply Hheld | done]. }
  destruct (step linkId assessment st0 e) as [st1 out1]. simpl in Hstep.
  destruct Hstep as [Hheld1 Hup1]. specialize (IH st1 Hheld1 Hup1).
  by destruct (run linkId assessment st1 es) as [st2 out2].
Qed.

(** ** Starting and resuming *)

Lemma dom_restoredAnswers saved :
  dom (restoredAnswers saved)
  = (list_to_set (map backend_assessmentEntryId saved) : gset string).
Proof.
  apply set_eq. intros k.
  by rewrite elem_of_dom, restoredAnswers_is_Some, elem_of_list_to_set.
Qed.


(** X4: the start handler never moves the cursor.  A rejected start leaves
    the whole state as it was and shows nothing.  A successful start keeps
    the local store when the attempt brings no saved answer (the list
    missing or empty) and otherwise replaces it wholesale: a local entry
    for a question without a saved answer is dropped. *)
Theorem start_keeps_or_replaces_the_store
    (linkId : string) (result : option AssessmentAttempt) (st : PageState) :
  let st' := (handleStartAssessment linkId result st).1 in
  cursor st' = cursor st
  ∧ (result = None →
     st' = st
     ∧ noticeShown (handleStartAssessment linkId result st).2 = false)
  ∧ (∀ attempt, result = Some attempt →
       assessmentAnswers attempt = None ∨ assessmentAnswers attempt = Some [] →
       answers st' = answers st)
  ∧ (∀ attempt saved, result = Some attempt →
       assessmentAnswers attempt = Some saved → saved ≠ [] →
       ∀ k, k ∉ map backend_assessmentEntryId saved → answers st' !! k = None).
Proof.
  intros st'. split; [apply cursor_handleStartAssessment|].
  split; [by intros ->|]. split.
  - intros attempt -> Hnone. unfold st', handleStartAssessment.
    by destruct Hnone as [-> | ->].
  - intros attempt saved -> Hsaved Hne k Hk. unfold st'.
    rewrite (answers_handleStartAssessment_resume _ _ saved) by done.
    apply eq_None_not_Some. by rewrite restoredAnswers_is_Some.
Qed.

Lemma start_keeps_or_replaces_the_store_witness :
  let local := setAnswers {[ "q2" := choiceAnswer ]} initialState in
  let attempt :=
    mkAttempt IN_PROGRESS (Some 0)
      (Some [mkBackendAnswer "q1" None (Some (JsString.of_string "x"))]) in
  Some attempt = Some attempt
  ∧ assessmentAnswers attempt
    = Some [mkBackendAnswer "q1" None (Some (JsString.of_string "x"))]
  ∧ ("q2" ∉ map backend_assessmentEntryId
              [mkBackendAnswer "q1" None (Some (JsString.of_string "x"))])
  ∧ answers local !! "q2" = Some choiceAnswer
  ∧ answers (handleStartAssessment "link" (Some attempt) local).1 !! "q2"
    = None.
Proof.
  intros local attempt.
  assert (Hfresh : "q2" ∉ map backend_assessmentEntryId
                     [mkBackendAnswer "q1" None
                        (Some (JsString.of_string "x"))]).
  { intros [Heq|Hin%elem_of_nil]%elem_of_cons; [discriminate | done]. }
  do 2 (split; [reflexivity|]). split; [exact Hfresh|].
  split; [reflexivity|].
  destruct (start_keeps_or_replaces_the_store "link" (Some attempt) local)
    as (_ & _ & _ & Hreplace).
  exact (Hreplace attempt _ eq_refl eq_refl ltac:(discriminate) "q2" Hfresh).
Defined.



(** X6: a restored answer never carries the empty text: an empty saved
    text is dropped, so the answer is then judged by its choices.  A
    restored answer is complete exactly when its saved text is non-empty
    and has a non-empty trim, or its saved text is missing or empty and at
    least one choice object is selected. *)
Theorem restored_answer_completeness (saved : BackendAnswer) :
  textAnswer (restoreAnswer saved) ≠ Some []
  ∧ (isValidAnswer (restoreAnswer saved) = true ↔
     match backend_textAnswer saved with
     | Some (c :: text) => length (JsString.trim (c :: text)) ≠ 0%nat
     | _ => ∃ choices, selectedChoices saved = Some choices ∧ choices ≠ []
     end).
Proof.
  rewrite isValidAnswer_true_iff. unfold restoreAnswer. simpl.
  assert (Hchoices :
    (∃ ids, Some match selectedChoices saved with
                 | Some choices => map choice_id choices
                 | None => []
                 end = Some ids ∧ ids ≠ [])
    ↔ ∃ choices, selectedChoices saved = Some choices ∧ choices ≠ []).
  { destruct (selectedChoices saved) as [choices|]; split.
    - intros (ids & [= <-] & Hne). exists choices. split; [done|].
      by intros ->.
    - intros (choices' & [= <-] & Hne). eexists. split; [done|].
      by destruct choices.
    - by intros (ids & [= <-] & Hne).
    - by intros (choices & ? & _). }
  destruct (backend_textAnswer saved) as [[|c text]|]; simpl.
  - by split.
  - by split.
  - by split.
Qed.

(** ** How edits compose *)

Lemma answers_step_not_start linkId assessment st e :
  (∀ result, e ≠ Start result) →
  answers (step linkId assessment st e).1 = answers st
  ∨ ∃ questionId answer,
      answers (step linkId assessment st e).1
      = <[questionId := answer]> (answers st).
Proof.
  intros Hstart.
  destruct st as [attempt s q store started remaining up].
  destruct e; simpl.
  - by destruct (Hstart result).
  - left. unfold timerTick, updateTimer. simpl. by repeat case_match.
  - unfold handleAnswerChange. simpl. destruct up; [by left|].
    right. by eexists _, _.
  - left. unfold navigateToQuestion. simpl. by destruct up.
  - left. unfold handleNext. simpl. by repeat case_match.
  - left. unfold handlePrevious. simpl. by repeat case_match.
  - by left.
Qed.

(** X7: no event other than a start removes an entry from the store: over
    any sequence without a start every stored question id stays stored, so
    the answered count never goes down, and it grows by at most one per
    event. *)
Theorem store_never_shrinks
    (linkId : string) (assessment : option Assessment) (es : list Event)
    (st : PageState) :
  Forall (λ e, ∀ result, e ≠ Start result) es →
  let st' := (run linkId assessment st es).1 in
  dom (answers st) ⊆ dom (answers st')
  ∧ (answeredQuestions st ≤ answeredQuestions st')%nat
  ∧ (answeredQuestions st' ≤ answeredQuestions st + length es)%nat.
Proof.
  revert st. induction es as [|e es IH]; intros st Hes; simpl.
  { split; [done|]. split; lia. }
  apply Forall_cons in Hes as [He Hes].
  pose proof (answers_step_not_start linkId assessment st e He) as Hstep.
  destruct (step linkId assessment st e) as [st1 out1]. simpl in Hstep.
  specialize (IH st1 Hes).
  destruct (run linkId assessment st1 es) as [st2 out2]. simpl in *.
  destruct IH as (Hdom & Hlow & Hhigh).
  unfold answeredQuestions, objectKeysLength in *.
  assert (Hone : dom (answers st) ⊆ dom (answers st1)
                 ∧ (size (answers st) ≤ size (answers st1))%nat
                 ∧ (size (answers st1) ≤ size (answers st) + 1)%nat).
  { destruct Hstep as [->|(k & v & ->)]; [split; [done|split; lia]|].
    split; [|split].
    - rewrite dom_insert_L. apply union_subseteq_r.
    - rewrite map_size_insert. destruct (answers st !! k); simpl; lia.
    - rewrite map_size_insert. destruct (answers st !! k); simpl; lia. }
  destruct Hone as (Hdom1 & Hlow1 & Hhigh1).
  split; [by etrans|]. split; lia.
Qed.

Lemma store_never_shrinks_witness :
  let es := [Answer "q1" choiceAnswer Fulfilled; Next;
             Answer "q1" blankAnswer Rejected; Tick 5] in
  Forall (λ e, ∀ result, e ≠ Start result) es
  ∧ (answeredQuestions initialState
     ≤ answeredQuestions (run "link" (Some twoSections) initialState es).1)%nat.
Proof.
  intros es.
  assert (Hes : Forall (λ e, ∀ result, e ≠ Start result) es)
    by (repeat constructor; discriminate).
  split; [exact Hes|].
  exact (proj1 (proj2 (store_never_shrinks
                         "link" (Some twoSections) es initialState Hes))).
Defined.

(** X8: an edit that stores a complete answer, made while time is not up,
    leads to exactly one auto-save call, and the call carries that
    answer. *)
Theorem complete_edit_is_saved_once
    (linkId questionId : string) (answer : AssessmentAnswer) (saved : Settled)
    (st : PageState) :
  isTimeUp st = false → isValidAnswer answer = true →
  let out := (handleAnswerChange linkId questionId answer saved st).2 in
  saveCalls out = 1%nat ∧ answer ∈ savedAnswers out.
Proof.
  intros Hup Hvalid out.
  assert (Hin : answer ∈ List.filter isValidAnswer
                  (objectValues (<[questionId := answer]> (answers st)))).
  { apply list_elem_of_In, filter_In. split; [|done].
    apply list_elem_of_In, elem_of_objectValues. exists questionId.
    apply lookup_insert_eq. }
  split.
  - unfold out, handleAnswerChange. rewrite Hup. simpl.
    destruct (List.filter _ _) as [|v vs]; [by apply elem_of_nil in Hin|].
    simpl. by destruct saved.
  - unfold out. by rewrite savedAnswers_handleAnswerChange.
Qed.

Lemma complete_edit_is_saved_once_witness :
  isTimeUp initialState = false
  ∧ isValidAnswer choiceAnswer = true
  ∧ saveCalls (handleAnswerChange "link" "q1" choiceAnswer Rejected
                                  initialState).2 = 1%nat.
Proof.
  do 2 (split; [reflexivity|]).
  exact (proj1 (complete_edit_is_saved_once
                  "link" "q1" choiceAnswer Rejected initialState
                  eq_refl eq_refl)).
Defined.

(** X9: when an edit stores an incomplete answer and no other stored answer
    is complete, nothing at all is sent: no call tells the persistence
    collaborator that the question's earlier answer, even a complete one
    it was sent before, has been cleared. *)
Theorem clearing_the_last_answer_sends_nothing
    (linkId questionId : string) (answer : AssessmentAnswer) (saved : Settled)
    (st : PageState) :
  isTimeUp st = false → isValidAnswer answer = false →
  (∀ k other, k ≠ questionId → answers st !! k = Some other →
              isValidAnswer other = false) →
  handleAnswerChange linkId questionId answer saved st
  = (setAnswers (<[questionId := answer]> (answers st)) st, []).
Proof.
  intros Hup Hinvalid Hothers. unfold handleAnswerChange. rewrite Hup.
  assert (Hnone : List.filter isValidAnswer
                    (objectValues (<[questionId := answer]> (answers st)))
                  = []).
  { destruct (List.filter _ _) as [|v vs] eqn:Hf; [done|].
    assert (Hv : In v (List.filter isValidAnswer
                   (objectValues (<[questionId := answer]> (answers st)))))
      by (rewrite Hf; by left).
    apply filter_In in Hv as [Hv Hvalid].
    apply list_elem_of_In, elem_of_objectValues in Hv as [k Hk].
    apply lookup_insert_Some in Hk as [[_ <-]|[Hne Hk]]; [congruence|].
    rewrite (Hothers k v) in Hvalid by done. discriminate. }
  by rewrite Hnone.
Qed.

Lemma clearing_the_last_answer_sends_nothing_witness :
  let st := (handleAnswerChange "link" "q1" choiceAnswer Fulfilled
                                initialState).1 in
  isTimeUp st = false
  ∧ isValidAnswer blankAnswer = false
  ∧ savedAnswers (handleAnswerChange "link" "q1" choiceAnswer Fulfilled
                                     initialState).2 = [choiceAnswer]
  ∧ (handleAnswerChange "link" "q1" blankAnswer Fulfilled st).2 = [].
Proof.
  intros st. do 3 (split; [reflexivity|]).
  rewrite (clearing_the_last_answer_sends_nothing
             "link" "q1" blankAnswer Fulfilled st eq_refl eq_refl);
    [reflexivity|].
  intros k other Hk Hlook. unfold st in Hlook.
  rewrite answers_handleAnswerChange in Hlook by reflexivity.
  rewrite lookup_insert_ne in Hlook by done. simpl in Hlook.
  by rewrite lookup_empty in Hlook.
Defined.

Lemma handleAnswerChange_state linkId questionId answer saved st :
  isTimeUp st = false →
  (handleAnswerChange linkId questionId answer saved st).1
  = setAnswers (<[questionId := answer]> (answers st)) st.
Proof. intros Hup. unfold handleAnswerChange. by rewrite Hup. Qed.

(** X10: edits of two different questions commute: in either order they
    leave the same state, and the later call of either order carries the
    same answers. *)
Theorem edits_of_different_questions_commute
    (linkId q1 q2 : string) (a1 a2 : AssessmentAnswer) (s1 s2 : Settled)
    (st : PageState) :
  q1 ≠ q2 →
  let first12 := (handleAnswerChange linkId q1 a1 s1 st).1 in
  let first21 := (handleAnswerChange linkId q2 a2 s2 st).1 in
  (handleAnswerChange linkId q2 a2 s2 first12).1
  = (handleAnswerChange linkId q1 a1 s1 first21).1
  ∧ savedAnswers (handleAnswerChange linkId q2 a2 s2 first12).2
    ≡ₚ savedAnswers (handleAnswerChange linkId q1 a1 s1 first21).2.
Proof.
  intros Hne first12 first21.
  destruct (isTimeUp st) eqn:Hup.
  - unfold first12, first21, handleAnswerChange. rewrite Hup. simpl.
    by rewrite Hup.
  - assert (H12 : isTimeUp first12 = false)
      by (unfold first12; by rewrite isTimeUp_handleAnswerChange).
    assert (H21 : isTimeUp first21 = false)
      by (unfold first21; by rewrite isTimeUp_handleAnswerChange).
    assert (Hstore : <[q2 := a2]> (answers first12)
                     = <[q1 := a1]> (answers first21)).
    { unfold first12, first21.
      rewrite !answers_handleAnswerChange by done.
      by apply insert_insert_ne. }
    split.
    + rewrite !handleAnswerChange_state by done. rewrite Hstore.
      unfold first12, first21. by rewrite !handleAnswerChange_state by done.
    + rewrite !savedAnswers_handleAnswerChange by done. by rewrite Hstore.
Qed.

Lemma edits_of_different_questions_commute_witness :
  "q1" ≠ "q2"
  ∧ (handleAnswerChange "link" "q2" blankAnswer Fulfilled
       (handleAnswerChange "link" "q1" choiceAnswer Fulfilled initialState).1).1
    = (handleAnswerChange "link" "q1" choiceAnswer Fulfilled
         (handleAnswerChange "link" "q2" blankAnswer Fulfilled
                             initialState).1).1.
Proof.
  assert (Hne : "q1" ≠ "q2") by discriminate.
  split; [exact Hne|].
  exact (proj1 (edits_of_different_questions_commute
                  "link" "q1" "q2" choiceAnswer blankAnswer Fulfilled Fulfilled
                  initialState Hne)).
Defined.

(** X11: the last edit of a question wins: editing it twice in a row gives
    the state and the auto-save call of the second edit alone. *)
Theorem last_edit_of_a_question_wins
    (linkId questionId : string) (a1 a2 : AssessmentAnswer) (s1 s2 : Settled)
    (st : PageState) :
  handleAnswerChange linkId questionId a2 s2
    (handleAnswerChange linkId questionId a1 s1 st).1
  = handleAnswerChange linkId questionId a2 s2 st.
Proof.
  destruct (isTimeUp st) eqn:Hup.
  - unfold handleAnswerChange. rewrite Hup. simpl. by rewrite Hup.
  - unfold handleAnswerChange. rewrite Hup. simpl. rewrite Hup.
    by rewrite insert_insert_eq.
Qed.

(** ** Moving back and forth *)

Lemma cursor_neq_inv st st' :
  cursor st' ≠ cursor st → st' ≠ st.
Proof. intros Hne ->. by apply Hne. Qed.

(** X12: next and previous undo each other.  With the cursor on a question
    and time not up, whenever next moves the cursor, previous brings the
    page back to the state before, and whenever previous moves the cursor,
    next brings it back. *)
Theorem next_and_previous_are_inverse
    (a : Assessment) (section : Section_) (st : PageState) :
  isTimeUp st = false →
  index (sections a) (currentSectionIndex st) = Some section →
  0 <= currentQuestionIndex st < Z.of_nat (length (questions section)) →
  (cursor (handleNext (Some a) st) ≠ cursor st →
   handlePrevious (Some a) (handleNext (Some a) st) = Returns st)
  ∧ (cursor (stateOf (handlePrevious (Some a) st)) ≠ cursor st →
     handleNext (Some a) (stateOf (handlePrevious (Some a) st)) = st).
Proof.
  intros Hup Hsection Hq.
  pose proof (index_Some _ _ _ Hsection) as Hs.
  split.
  - destruct (Z.lt_ge_cases (currentQuestionIndex st)
                            (Z.of_nat (length (questions section)) - 1))
      as [Hin|Hlast].
    { intros _. rewrite (handleNext_within a section) by done.
      rewrite handlePrevious_within; [|done|simpl; lia].
      f_equal. destruct st. unfold setCurrentQuestionIndex. simpl.
      f_equal. lia. }
    destruct (Z.lt_ge_cases (currentSectionIndex st)
                            (Z.of_nat (length (sections a)) - 1))
      as [Hmore|Hend].
    + intros _. rewrite (handleNext_across a section) by done.
      rewrite (handlePrevious_across a section); [|done|simpl; lia..| |].
      * f_equal. destruct st.
        unfold setCurrentQuestionIndex, setCurrentSectionIndex. simpl in *.
        f_equal; lia.
      * simpl. by replace (currentSectionIndex st + 1 - 1)
          with (currentSectionIndex st) by lia.
      * intros Hnil. rewrite Hnil in Hq. simpl in Hq. lia.
    + rewrite (handleNext_at_end a section) by done. by intros [].
  - destruct (Z.lt_ge_cases 0 (currentQuestionIndex st)) as [Hin|Hfirst].
    { intros _. rewrite handlePrevious_within by done.
      rewrite (handleNext_within a section); [|done|done|simpl; lia].
      destruct st. unfold setCurrentQuestionIndex. simpl. f_equal. lia. }
    destruct (Z.lt_ge_cases 0 (currentSectionIndex st)) as [Hmore|Hstart].
    + intros _.
      destruct (index_is_Some (sections a) (currentSectionIndex st - 1))
        as [previous Hprevious]; [lia|].
      assert (Hback : ∃ q',
        handlePrevious (Some a) st
        = Returns (setCurrentQuestionIndex q'
                     (setCurrentSectionIndex (currentSectionIndex st - 1) st))
        ∧ Z.of_nat (length (questions previous)) - 1 <= q').
      { unfold handlePrevious. rewrite Hup, Hprevious.
        destruct (Z.ltb_spec 0 (currentQuestionIndex st)); [lia|].
        destruct (Z.ltb_spec 0 (currentSectionIndex st)); [|lia].
        eexists. split; [done|].
        destruct (Nat.eqb_spec (length (questions previous)) 0); lia. }
      destruct Hback as (q' & -> & Hq'). simpl.
      rewrite (handleNext_across a previous); [|done|done|done|simpl; lia].
      destruct st.
      unfold setCurrentQuestionIndex, setCurrentSectionIndex. simpl in *.
      f_equal; lia.
    + rewrite handlePrevious_at_start by done. by intros [].
Qed.

Lemma next_and_previous_are_inverse_witness :
  let st := setCurrentQuestionIndex 1 initialState in
  isTimeUp st = false
  ∧ index (sections twoSections) (currentSectionIndex st)
    = Some (mkSection "first" [mkQuestion "q1" RADIO; mkQuestion "q2" TEXT])
  ∧ 0 <= currentQuestionIndex st < 2
  ∧ cursor (handleNext (Some twoSections) st) ≠ cursor st
  ∧ handlePrevious (Some twoSections) (handleNext (Some twoSections) st)
    = Returns st.
Proof.
  intros st.
  assert (Hq : 0 <= currentQuestionIndex st
               < Z.of_nat (length [mkQuestion "q1" RADIO; mkQuestion "q2" TEXT]))
    by (simpl; lia).
  assert (Hmoved : cursor (handleNext (Some twoSections) st) ≠ cursor st)
    by discriminate.
  split; [reflexivity|]. split; [reflexivity|]. split; [exact Hq|].
  split; [exact Hmoved|].
  exact (proj1 (next_and_previous_are_inverse
                  twoSections _ st eq_refl eq_refl Hq) Hmoved).
Defined.

(** X13: the two navigation buttons are live exactly when their handlers
    move the cursor.  With the cursor on a question, the next button is
    shown and enabled if and only if [handleNext] changes the position, and
    the previous button is enabled if and only if [handlePrevious] does. *)
Theorem buttons_are_live_when_handlers_move
    (a : Assessment) (st : PageState) :
  cursorInBounds a st →
  (nextShown (Some a) st && negb (isTimeUp st) = true
   ↔ cursor (handleNext (Some a) st) ≠ cursor st)
  ∧ (previousDisabled st = false
     ↔ cursor (stateOf (handlePrevious (Some a) st)) ≠ cursor st).
Proof.
  intros (Hs & section & Hsection & Hq). split.
  - unfold nextShown, currentSection. rewrite Hsection.
    destruct (isTimeUp st) eqn:Hup; cbn [negb].
    { rewrite andb_false_r, handleNext_expired by done. by split. }
    rewrite andb_true_r, negb_true_iff, andb_false_iff, !Z.eqb_neq.
    destruct (Z.lt_ge_cases (currentQuestionIndex st)
                            (Z.of_nat (length (questions section)) - 1))
      as [Hin|Hlast].
    { rewrite (handleNext_within a section) by done.
      unfold cursor. simpl. split; [intros _ [=]; lia | intros _; right; lia]. }
    destruct (Z.lt_ge_cases (currentSectionIndex st)
                            (Z.of_nat (length (sections a)) - 1))
      as [Hmore|Hend].
    + rewrite (handleNext_across a section) by done.
      unfold cursor. simpl. split; [intros _ [=]; lia | intros _; left; lia].
    + rewrite (handleNext_at_end a section) by done.
      split; [intros [?|?]; lia | by intros []].
  - unfold previousDisabled. destruct (isTimeUp st) eqn:Hup.
    { rewrite orb_true_r, handlePrevious_expired by done. by split. }
    rewrite orb_false_r, andb_false_iff, !Z.eqb_neq.
    destruct (Z.lt_ge_cases 0 (currentQuestionIndex st)) as [Hin|Hfirst].
    { rewrite handlePrevious_within by done.
      unfold cursor. simpl. split; [intros _ [=]; lia | intros _; right; lia]. }
    destruct (Z.lt_ge_cases 0 (currentSectionIndex st)) as [Hmore|Hstart].
    + destruct (index_is_Some (sections a) (currentSectionIndex st - 1))
        as [previous Hprevious]; [lia|].
      unfold handlePrevious. rewrite Hup, Hprevious.
      destruct (Z.ltb_spec 0 (currentQuestionIndex st)); [lia|].
      destruct (Z.ltb_spec 0 (currentSectionIndex st)); [|lia].
      unfold cursor. simpl. split; [intros _ [=]; lia | intros _; left; lia].
    + rewrite handlePrevious_at_start by done.
      split; [intros [?|?]; lia | by intros []].
Qed.

Lemma buttons_are_live_when_handlers_move_witness :
  cursorInBounds twoSections initialState
  ∧ nextShown (Some twoSections) initialState = true
  ∧ previousDisabled initialState = true
  ∧ cursor (handleNext (Some twoSections) initialState) ≠ cursor initialState.
Proof.
  pose proof (cursorInBounds_initial twoSections populated_twoSections) as Hin.
  split; [exact Hin|]. do 2 (split; [reflexivity|]).
  apply (proj1 (buttons_are_live_when_handlers_move
                  twoSections initialState Hin)). reflexivity.
Defined.

(** ** Document order *)

Lemma totalQuestions_allQuestions a :
  totalQuestions (Some a) = length (allQuestions a).
Proof.
  rewrite totalQuestions_questionIds. unfold questionIds, allQuestions.
  induction (sections a) as [|section rest IH]; simpl; [done|].
  by rewrite !length_app, length_map, IH.
Qed.

Lemma questionsBefore_next a s section :
  index (sections a) s = Some section →
  questionsBefore a (s + 1)
  = (questionsBefore a s + length (questions section))%nat.
Proof.
  intros Hsection. pose proof (index_Some _ _ _ Hsection) as Hs.
  unfold index in Hsection. rewrite decide_True in Hsection by lia.
  unfold questionsBefore.
  replace (Z.to_nat (s + 1)) with (S (Z.to_nat s)) by lia.
  rewrite (take_S_r _ _ _ Hsection), flat_map_app, length_app. simpl.
  by rewrite app_nil_r.
Qed.

Lemma questionsBefore_le_total a s :
  (questionsBefore a s ≤ length (allQuestions a))%nat.
Proof.
  unfold questionsBefore, allQuestions.
  rewrite <- (take_drop (Z.to_nat s) (sections a)) at 2.
  rewrite flat_map_app, length_app. lia.
Qed.

Lemma questionsBefore_all a :
  questionsBefore a (Z.of_nat (length (sections a))) = length (allQuestions a).
Proof.
  unfold questionsBefore, allQuestions. rewrite Nat2Z.id.
  by rewrite firstn_all.
Qed.

Lemma questionsBefore_0 a : questionsBefore a 0 = 0%nat.
Proof. reflexivity. Qed.

(** The question under the cursor is the one at the cursor's rank. *)
Lemma currentQuestion_position a st :
  cursorInBounds a st →
  currentQuestion (Some a) st = allQuestions a !! Z.to_nat (position a st)
  ∧ 0 <= position a st < Z.of_nat (length (allQuestions a)).
Proof.
  intros (Hs & section & Hsection & Hq).
  pose proof (questionsBefore_next a _ section Hsection) as Hnext.
  pose proof (questionsBefore_le_total a (currentSectionIndex st + 1)) as Hle.
  split; [|unfold position; lia].
  unfold currentQuestion, currentSection. rewrite Hsection.
  unfold index in *. rewrite !decide_True in * by lia.
  unfold position, questionsBefore, allQuestions.
  rewrite <- (take_drop_middle _ _ _ Hsection) at 2.
  rewrite flat_map_app. simpl.
  replace (Z.to_nat (Z.of_nat (length (flat_map questions
             (take (Z.to_nat (currentSectionIndex st)) (sections a))))
           + currentQuestionIndex st))
    with (length (flat_map questions
                    (take (Z.to_nat (currentSectionIndex st)) (sections a)))
          + Z.to_nat (currentQuestionIndex st))%nat by lia.
  rewrite lookup_app_r by lia.
  replace (_ + _ - _)%nat with (Z.to_nat (currentQuestionIndex st)) by lia.
  rewrite lookup_app_l by lia. done.
Qed.

Lemma handleNext_position a st :
  populated a → cursorInBounds a st → isTimeUp st = false →
  position a (handleNext (Some a) st)
  = Z.min (position a st + 1) (Z.of_nat (length (allQuestions a)) - 1).
Proof.
  intros Hpop (Hs & section & Hsection & Hq) Hup.
  pose proof (questionsBefore_next a _ section Hsection) as Hnext.
  destruct (Z.lt_ge_cases (currentQuestionIndex st)
                          (Z.of_nat (length (questions section)) - 1))
    as [Hin|Hlast].
  { rewrite (handleNext_within a section) by done.
    pose proof (questionsBefore_le_total a (currentSectionIndex st + 1)).
    unfold position. simpl. lia. }
  destruct (Z.lt_ge_cases (currentSectionIndex st)
                          (Z.of_nat (length (sections a)) - 1))
    as [Hmore|Hend].
  - rewrite (handleNext_across a section) by done.
    destruct (index_is_Some (sections a) (currentSectionIndex st + 1))
      as [following Hfollowing]; [lia|].
    pose proof (populated_section a _ following Hpop Hfollowing).
    pose proof (questionsBefore_next a _ following Hfollowing).
    pose proof (questionsBefore_le_total a (currentSectionIndex st + 1 + 1)).
    unfold position. simpl. lia.
  - rewrite (handleNext_at_end a section) by done.
    pose proof (questionsBefore_all a) as Hall.
    replace (Z.of_nat (length (sections a)))
      with (currentSectionIndex st + 1) in Hall by lia.
    unfold position. lia.
Qed.

Lemma handlePrevious_position a st :
  populated a → cursorInBounds a st → isTimeUp st = false →
  position a (stateOf (handlePrevious (Some a) st))
  = Z.max (position a st - 1) 0.
Proof.
  intros Hpop (Hs & section & Hsection & Hq) Hup.
  destruct (Z.lt_ge_cases 0 (currentQuestionIndex st)) as [Hin|Hfirst].
  { rewrite handlePrevious_within by done. cbn [stateOf].
    unfold position. simpl. lia. }
  destruct (Z.lt_ge_cases 0 (currentSectionIndex st)) as [Hmore|Hstart].
  - destruct (index_is_Some (sections a) (currentSectionIndex st - 1))
      as [previous Hprevious]; [lia|].
    pose proof (populated_section a _ previous Hpop Hprevious) as Hlen.
    pose proof (questionsBefore_next a _ previous Hprevious) as Hnext.
    replace (currentSectionIndex st - 1 + 1)
      with (currentSectionIndex st) in Hnext by lia.
    rewrite (handlePrevious_across a previous); try done; try lia.
    + cbn [stateOf]. unfold position. simpl. lia.
    + intros Hnil. rewrite Hnil in Hlen. simpl in Hlen. lia.
  - rewrite handlePrevious_at_start by done. cbn [stateOf].
    unfold position.
    assert (Hzero : currentSectionIndex st = 0) by lia.
    rewrite Hzero, questionsBefore_0. lia.
Qed.

(** X14: next and previous walk the questions in document order.  In an
    assessment without empty sections, with the cursor on a question and
    time not up, the question under the cursor is the one at the cursor's
    rank in the list of all questions, next raises the rank by one unless
    it is the last, and previous lowers it by one unless it is the
    first. *)
Theorem navigation_follows_the_question_list
    (a : Assessment) (st : PageState) :
  populated a → cursorInBounds a st → isTimeUp st = false →
  let total := Z.of_nat (length (allQuestions a)) in
  currentQuestion (Some a) st = allQuestions a !! Z.to_nat (position a st)
  ∧ 0 <= position a st < total
  ∧ position a (handleNext (Some a) st) = Z.min (position a st + 1) (total - 1)
  ∧ currentQuestion (Some a) (handleNext (Some a) st)
    = allQuestions a !! Z.to_nat (Z.min (position a st + 1) (total - 1))
  ∧ position a (stateOf (handlePrevious (Some a) st))
    = Z.max (position a st - 1) 0
  ∧ currentQuestion (Some a) (stateOf (handlePrevious (Some a) st))
    = allQuestions a !! Z.to_nat (Z.max (position a st - 1) 0).
Proof.
  intros Hpop Hin Hup total.
  destruct (currentQuestion_position a st Hin) as [Hcurrent Hrange].
  pose proof (handleNext_cursorInBounds a st Hpop Hin) as Hnext.
  destruct (handlePrevious_cursorInBounds a st Hpop Hin)
    as (back & Hback & Hprevious).
  split; [done|]. split; [done|].
  split; [by apply handleNext_position|]. split.
  { rewrite (proj1 (currentQuestion_position a _ Hnext)).
    by rewrite handleNext_position. }
  split; [by apply handlePrevious_position|].
  pose proof (handlePrevious_position a st Hpop Hin Hup) as Hpos.
  rewrite Hback in *. simpl in *.
  rewrite (proj1 (currentQuestion_position a _ Hprevious)).
  by rewrite Hpos.
Qed.

Lemma navigation_follows_the_question_list_witness :
  let st := setCurrentQuestionIndex 1 initialState in
  populated twoSections
  ∧ cursorInBounds twoSections st
  ∧ isTimeUp st = false
  ∧ position twoSections st = 1
  ∧ position twoSections (handleNext (Some twoSections) st) = 2.
Proof.
  intros st.
  assert (Hin : cursorInBounds twoSections st).
  { split; [simpl; lia|]. eexists. split; [reflexivity | simpl; lia]. }
  split; [exact populated_twoSections|]. split; [exact Hin|].
  do 2 (split; [reflexivity|]).
  destruct (navigation_follows_the_question_list
              twoSections st populated_twoSections Hin eq_refl)
    as (_ & _ & Hnext & _).
  rewrite Hnext. reflexivity.
Defined.

Lemma iter_handleNext a n : ∀ st,
  populated a → cursorInBounds a st → isTimeUp st = false →
  let st' := Nat.iter n (handleNext (Some a)) st in
  cursorInBounds a st' ∧ isTimeUp st' = false
  ∧ position a st'
    = Z.min (position a st + Z.of_nat n)
            (Z.of_nat (length (allQuestions a)) - 1).
Proof.
  induction n as [|n IH]; intros st Hpop Hin Hup.
  - simpl. split; [done|]. split; [done|].
    pose proof (proj2 (currentQuestion_position a st Hin)). lia.
  - destruct (IH st Hpop Hin Hup) as (Hin' & Hup' & Hpos).
    cbv zeta. rewrite Nat.iter_succ.
    split; [by apply handleNext_cursorInBounds|].
    split; [by rewrite isTimeUp_handleNext|].
    rewrite handleNext_position by done. rewrite Hpos. lia.
Qed.

(** X15: pressing next often enough reaches the last question and stays
    there.  From a cursor on a question, in an assessment without empty
    sections and with time not up, n presses move the rank forward by n,
    capped at the last question; once the last question is reached a
    further press changes nothing. *)
Theorem repeated_next_reaches_the_last_question
    (a : Assessment) (n : nat) (st : PageState) :
  populated a → cursorInBounds a st → isTimeUp st = false →
  let total := Z.of_nat (length (allQuestions a)) in
  let st' := Nat.iter n (handleNext (Some a)) st in
  cursorInBounds a st'
  ∧ position a st' = Z.min (position a st + Z.of_nat n) (total - 1)
  ∧ (total - 1 <= position a st + Z.of_nat n →
     currentQuestion (Some a) st' = last (allQuestions a)
     ∧ handleNext (Some a) st' = st').
Proof.
  intros Hpop Hin Hup total st'.
  destruct (iter_handleNext a n st Hpop Hin Hup) as (Hin' & Hup' & Hpos).
  fold st' in Hin', Hup', Hpos. fold total in Hpos.
  split; [done|]. split; [done|]. intros Hreach.
  assert (Hlast : position a st' = total - 1) by lia.
  split.
  - rewrite (proj1 (currentQuestion_position a st' Hin')), Hlast.
    rewrite last_lookup. f_equal. unfold total. lia.
  - pose proof (handleNext_position a st' Hpop Hin' Hup') as Hstay.
    fold total in Hstay.
    destruct Hin' as (Hs & section & Hsection & Hq).
    destruct (Z.lt_ge_cases (currentQuestionIndex st')
                            (Z.of_nat (length (questions section)) - 1))
      as [Hinside|Hedge].
    { rewrite (handleNext_within a section) in Hstay by done.
      unfold position in Hstay, Hlast. simpl in Hstay. lia. }
    destruct (Z.lt_ge_cases (currentSectionIndex st')
                            (Z.of_nat (length (sections a)) - 1))
      as [Hmore|Hend].
    + rewrite (handleNext_across a section) in Hstay by done.
      pose proof (questionsBefore_next a _ section Hsection).
      unfold position in Hstay, Hlast. simpl in Hstay. lia.
    + by apply (handleNext_at_end a section).
Qed.

Lemma repeated_next_reaches_the_last_question_witness :
  populated twoSections
  ∧ cursorInBounds twoSections initialState
  ∧ isTimeUp initialState = false
  ∧ currentQuestion (Some twoSections)
      (Nat.iter 5 (handleNext (Some twoSections)) initialState)
    = Some (mkQuestion "q3" CHECKBOX).
Proof.
  pose proof (cursorInBounds_initial twoSections populated_twoSections) as Hin.
  split; [exact populated_twoSections|]. split; [exact Hin|].
  split; [reflexivity|].
  destruct (repeated_next_reaches_the_last_question
              twoSections 5 initialState populated_twoSections Hin eq_refl)
    as (_ & _ & Hreach).
  destruct Hreach as [Hlast _]; [vm_compute; discriminate|].
  rewrite Hlast. reflexivity.
Defined.

(** ** The sidebar *)

Lemma map_snd_imap_row {A} (c : nat) (g : nat → nat) (qs : list A) :
  map (λ item : nat * nat * A, item.2) (imap (λ j x, (c, g j, x)) qs) = qs.
Proof.
  revert g. induction qs as [|x qs IH]; intros g; [done|].
  simpl. f_equal. apply (IH (g ∘ S)).
Qed.

Lemma map_snd_sidebar (k : nat → nat) (secs : list Section_) :
  map (λ item : nat * nat * Question, item.2)
      (concat (imap (λ i section,
                       imap (λ j question, (k i, j, question))
                            (questions section))
                    secs))
  = flat_map questions secs.
Proof.
  revert k. induction secs as [|section rest IH]; intros k; [done|].
  simpl. rewrite map_app. f_equal.
  - apply (map_snd_imap_row (k 0%nat) (λ j, j)).
  - apply (IH (k ∘ S)).
Qed.

Lemma elem_of_sidebarItems a i j question :
  (i, j, question) ∈ sidebarItems (Some a)
  ↔ ∃ section, sections a !! i = Some section
               ∧ questions section !! j = Some question.
Proof.
  unfold sidebarItems. rewrite list_elem_of_In, in_concat. split.
  - intros (row & Hrow & Hitem).
    apply list_elem_of_In, elem_of_lookup_imap in Hrow
      as (i' & section & -> & Hsection).
    apply list_elem_of_In, elem_of_lookup_imap in Hitem
      as (j' & question' & [= -> -> ->] & Hquestion).
    by exists section.
  - intros (section & Hsection & Hquestion).
    exists (imap (λ questionIndex question, (i, questionIndex, question))
                 (questions section)).
    split; apply list_elem_of_In, elem_of_lookup_imap.
    + by exists i, section.
    + by exists j, question.
Qed.

Lemma sidebarHas_true a i j :
  sidebarHas (Some a) i j = true
  ↔ ∃ question, (i, j, question) ∈ sidebarItems (Some a).
Proof.
  unfold sidebarHas. rewrite existsb_exists. split.
  - intros ([[i' j'] question] & Hin & Heq). simpl in Heq.
    apply andb_prop in Heq as [->%Nat.eqb_eq ->%Nat.eqb_eq].
    exists question. by apply list_elem_of_In.
  - intros (question & Hin). exists (i, j, question).
    split; [by apply list_elem_of_In|]. simpl.
    by rewrite !Nat.eqb_refl.
Qed.

Lemma index_of_nat {A} (xs : list A) (i : nat) :
  index xs (Z.of_nat i) = xs !! i.
Proof. unfold index. rewrite decide_True by lia. by rewrite Nat2Z.id. Qed.

(** X16: the sidebar lists every question exactly once, in document order,
    and an entry exists at two indices exactly when they name a question.
    A click on an entry, made while time is not up, puts the cursor on the
    question the entry shows. *)
Theorem sidebar_lists_every_question_once (a : Assessment) :
  map (λ item, item.2) (sidebarItems (Some a)) = allQuestions a
  ∧ length (sidebarItems (Some a)) = totalQuestions (Some a)
  ∧ (∀ i j question,
       (i, j, question) ∈ sidebarItems (Some a)
       ↔ ∃ section, sections a !! i = Some section
                    ∧ questions section !! j = Some question)
  ∧ (∀ i j question st,
       (i, j, question) ∈ sidebarItems (Some a) → isTimeUp st = false →
       currentQuestion (Some a)
         (navigateToQuestion (Z.of_nat i) (Z.of_nat j) st).1
       = Some question).
Proof.
  assert (Horder : map (λ item, item.2) (sidebarItems (Some a))
                   = allQuestions a)
    by apply (map_snd_sidebar (λ i, i)).
  split; [done|]. split; [|split].
  - by rewrite totalQuestions_allQuestions, <- Horder, length_map.
  - apply elem_of_sidebarItems.
  - intros i j question st (section & Hsection & Hquestion)%elem_of_sidebarItems
      Hup.
    unfold navigateToQuestion. rewrite Hup.
    unfold currentQuestion, currentSection. simpl.
    by rewrite index_of_nat, Hsection, index_of_nat.
Qed.

Lemma sidebar_lists_every_question_once_witness :
  (1%nat, 0%nat, mkQuestion "q3" CHECKBOX) ∈ sidebarItems (Some twoSections)
  ∧ isTimeUp initialState = false
  ∧ currentQuestion (Some twoSections)
      (navigateToQuestion 1 0 initialState).1
    = Some (mkQuestion "q3" CHECKBOX).
Proof.
  destruct (sidebar_lists_every_question_once twoSections)
    as (_ & _ & Hitems & Hclick).
  assert (Hin : (1%nat, 0%nat, mkQuestion "q3" CHECKBOX)
                ∈ sidebarItems (Some twoSections)).
  { apply Hitems. eexists. split; reflexivity. }
  split; [exact Hin|]. split; [reflexivity|].
  exact (Hclick 1%nat 0%nat _ initialState Hin eq_refl).
Defined.

(** ** The submit button *)


(** ** Sessions driven through the rendered controls *)

Section Controls.
Variable linkId : string.
Variable assessment : option Assessment.
Variables checkingValidity isValid validityError : bool.

Lemma onScreen_InProgress st :
  onScreen checkingValidity isValid validityError InProgressScreen st = true
  ↔ checkingValidity = false ∧ isValid = true
    ∧ isStarted st = true ∧ isTimeUp st = false.
Proof.
  unfold onScreen, screen, isExpired.
  destruct checkingValidity, isValid, validityError, (isStarted st),
    (isTimeUp st); simpl; split; try done; intros (? & ? & ? & ?); done.
Qed.

Lemma onScreen_PreAssessment st :
  onScreen checkingValidity isValid validityError PreAssessmentScreen st = true
  ↔ checkingValidity = false ∧ isValid = true ∧ isStarted st = false.
Proof.
  unfold onScreen, screen, isExpired.
  destruct checkingValidity, isValid, validityError, (isStarted st),
    (isTimeUp st); simpl; split; try done; intros (? & ? & ?); done.
Qed.

(** An action either finds no live control, and then changes nothing and
    at most leaves the page, or runs one handler. *)
Lemma uiStep_cases st action :
  ((uiStep linkId assessment checkingValidity isValid validityError st action).1 = st
   ∧ ((uiStep linkId assessment checkingValidity isValid validityError st action).2 = [] ∨ (uiStep linkId assessment checkingValidity isValid validityError st action).2 = [RouterPush "/"]))
  ∨ ∃ e, uiEvent assessment checkingValidity isValid validityError st action = Some e
         ∧ uiStep linkId assessment checkingValidity isValid validityError st action = step linkId assessment st e.
Proof.
  destruct action; unfold uiStep;
    try (destruct (uiEvent assessment checkingValidity isValid validityError st _) as [e|] eqn:He;
         [right; by exists e | left; split; [done | by left]]).
  left. split; [done|]. destruct (exitShown _ _ _ st); auto.
Qed.

Lemma uiEvent_live_screen st action e :
  uiEvent assessment checkingValidity isValid validityError st action = Some e →
  (∃ now, e = Tick now)
  ∨ (onScreen checkingValidity isValid validityError PreAssessmentScreen st = true ∧ ∃ result, e = Start result)
  ∨ (onScreen checkingValidity isValid validityError InProgressScreen st = true
     ∧ (∀ result, e ≠ Start result)).
Proof.
  destruct action; simpl; intros He.
  - destruct (onScreen checkingValidity isValid validityError PreAssessmentScreen st) eqn:Hpre; [|done].
    destruct (negb isPending); [|done]. injection He as <-.
    right; left. split; [done | by eexists].
  - injection He as <-. left. by eexists.
  - destruct (onScreen checkingValidity isValid validityError InProgressScreen st) eqn:Hin; [|done].
    destruct (questionPanelShown assessment st); [|done].
    destruct (currentQuestion assessment st); [|done]. injection He as <-.
    right; right. by split.
  - destruct (onScreen checkingValidity isValid validityError InProgressScreen st) eqn:Hin; [|done].
    destruct (sidebarHas assessment _ _); [|done]. injection He as <-.
    right; right. by split.
  - destruct (onScreen checkingValidity isValid validityError InProgressScreen st) eqn:Hin; [|done].
    destruct (_ && _ && _); [|done]. injection He as <-.
    right; right. by split.
  - destruct (onScreen checkingValidity isValid validityError InProgressScreen st) eqn:Hin; [|done].
    destruct (_ && _); [|done]. injection He as <-.
    right; right. by split.
  - destruct (onScreen checkingValidity isValid validityError InProgressScreen st) eqn:Hin; [|done].
    destruct (questionPanelShown assessment st); [|done]. injection He as <-.
    right; right. by split.
  - done.
Qed.

End Controls.

Lemma uiEvent_targetInRange a checkingValidity isValid validityError
    st action e :
  uiEvent (Some a) checkingValidity isValid validityError st action = Some e →
  targetInRange a e.
Proof.
  destruct action; simpl; intros He.
  - destruct (_ && negb _); [|done]. by injection He as <-.
  - by injection He as <-.
  - destruct (_ && questionPanelShown _ _); [|done].
    destruct (currentQuestion _ _); [|done]. by injection He as <-.
  - destruct (onScreen _ _ _ _ st); [|done]. simpl in He.
    destruct (sidebarHas (Some a) sectionIndex questionIndex) eqn:Hhas;
      [|done].
    injection He as <-. simpl.
    apply sidebarHas_true in Hhas as (question & Hitem).
    apply elem_of_sidebarItems in Hitem as (section & Hsection & Hquestion).
    exists section. rewrite index_of_nat. split; [done|].
    apply lookup_lt_Some in Hquestion. lia.
  - destruct (_ && _ && _ && _); [|done]. by injection He as <-.
  - destruct (_ && _ && _); [|done]. by injection He as <-.
  - destruct (_ && questionPanelShown _ _); [|done]. by injection He as <-.
  - done.
Qed.

(** X18: in an assessment without empty sections, whatever the trainee
    clicks and whenever the clock ticks, the cursor stays on a question:
    the sidebar only offers jumps to questions that exist. *)
Theorem controls_keep_the_cursor_on_a_question
    (linkId : string) (a : Assessment)
    (checkingValidity isValid validityError : bool)
    (actions : list UiAction) (st : PageState) :
  populated a → cursorInBounds a st →
  cursorInBounds a
    (uiRun linkId (Some a) checkingValidity isValid validityError
           st actions).1.
Proof.
  intros Hpop. revert st.
  induction actions as [|action actions IH]; intros st Hin; simpl; [done|].
  assert (Hstep : cursorInBounds a
            (uiStep linkId (Some a) checkingValidity isValid validityError
                    st action).1).
  { destruct (uiStep_cases linkId (Some a) checkingValidity isValid
                           validityError st action)
      as [[-> _]|(e & He & ->)]; [done|].
    apply step_cursorInBounds; [done..|].
    by apply (uiEvent_targetInRange a checkingValidity isValid validityError
                                    st action). }
  destruct (uiStep _ _ _ _ _ st action) as [st1 out1]. simpl in Hstep.
  specialize (IH st1 Hstep).
  by destruct (uiRun _ _ _ _ _ st1 actions) as [st2 out2].
Qed.

Lemma controls_keep_the_cursor_on_a_question_witness :
  let actions := [ClickStart false (Some (runningAttempt 0));
                  ClickSidebar 1 0; ClickSidebar 7 7; ClickPrevious;
                  ClickNext; ClickNext] in
  populated twoSections
  ∧ cursorInBounds twoSections initialState
  ∧ cursorInBounds twoSections
      (uiRun "link" (Some twoSections) false true false
             initialState actions).1.
Proof.
  intros actions.
  pose proof (cursorInBounds_initial twoSections populated_twoSections) as Hin.
  split; [exact populated_twoSections|]. split; [exact Hin|].
  exact (controls_keep_the_cursor_on_a_question
           "link" twoSections false true false actions initialState
           populated_twoSections Hin).
Defined.

(** X19: once a started session is expired the page is frozen for the
    trainee: no click and no tick changes any state cell, calls a
    collaborator or shows a notice; the only thing left is to leave the
    page.  The warnings of the answer and jump handlers are never reached
    through the rendered controls. *)
Theorem expired_page_only_lets_the_trainee_leave
    (linkId : string) (assessment : option Assessment)
    (checkingValidity isValid validityError : bool)
    (actions : list UiAction) (st : PageState) :
  isStarted st = true → isTimeUp st = true →
  (uiRun linkId assessment checkingValidity isValid validityError
         st actions).1 = st
  ∧ Forall (λ e, e = RouterPush "/")
      (uiRun linkId assessment checkingValidity isValid validityError
             st actions).2.
Proof.
  intros Hstarted Hup.
  induction actions as [|action actions IH]; simpl; [by split|].
  assert (Hstep :
    (uiStep linkId assessment checkingValidity isValid validityError
            st action).1 = st
    ∧ Forall (λ e, e = RouterPush "/")
        (uiStep linkId assessment checkingValidity isValid validityError
                st action).2).
  { destruct (uiStep_cases linkId assessment checkingValidity isValid
                           validityError st action)
      as [[Hsame [-> | ->]]|(e & He & ->)];
      [split; [done | constructor] | split; [done | by repeat constructor] |].
    destruct (uiEvent_live_screen assessment checkingValidity isValid
                                  validityError st action e He)
      as [[now ->]|[[Hpre _]|[Hin _]]].
    - simpl. rewrite timerTick_expired by done. by split.
    - apply onScreen_PreAssessment in Hpre as (_ & _ & Hnot). congruence.
    - apply onScreen_InProgress in Hin as (_ & _ & _ & Hnot). congruence. }
  destruct (uiStep _ _ _ _ _ st action) as [st1 out1]. simpl in Hstep.
  destruct Hstep as [-> Hout1].
  destruct (uiRun _ _ _ _ _ st actions) as [st2 out2]. simpl in IH.
  destruct IH as [-> Hout2]. simpl. split; [done|]. by apply Forall_app.
Qed.

Lemma expired_page_only_lets_the_trainee_leave_witness :
  let actions := [ChangeAnswer choiceAnswer Fulfilled; ClickSidebar 0 0;
                  ClickNext; ClickSubmit false Fulfilled; ClockTick 9;
                  ClickExit] in
  isStarted expiredState = true
  ∧ isTimeUp expiredState = true
  ∧ (uiRun "link" (Some twoSections) false true false
           expiredState actions).1 = expiredState.
Proof.
  intros actions. do 2 (split; [reflexivity|]).
  exact (proj1 (expired_page_only_lets_the_trainee_leave
                  "link" (Some twoSections) false true false actions
                  expiredState eq_refl eq_refl)).
Defined.

Lemma step_submissionInvoked linkId assessment st e :
  submissionInvoked (step linkId assessment st e).2 = true →
  ∃ submitted, e = Submit false submitted
               ∧ isTimeUp st = false
               ∧ allQuestionsAnswered assessment st = true.
Proof.
  destruct e; simpl.
  - unfold handleStartAssessment. destruct result as [attempt|]; [|done].
    by destruct (assessmentAnswers attempt) as [[|? ?]|].
  - unfold timerTick, updateTimer. by repeat case_match.
  - unfold handleAnswerChange. by repeat case_match.
  - unfold navigateToQuestion. by repeat case_match.
  - done.
  - done.
  - unfold clickSubmit.
    destruct (submitDisabled assessment isPending st) eqn:Hgate; [done|].
    intros _. unfold submitDisabled in Hgate.
    apply orb_false_elim in Hgate as [[-> Hup]%orb_false_elim Hall].
    exists submitted. split; [done|]. split; [done|].
    by apply negb_false_iff.
Qed.

(** X20: through the rendered controls the submission collaborator is
    reached by one action only, a click on submit while no submission is
    pending, and only when the link is valid and loaded, the session is
    started, time is not up, the cursor is on a question and the store has
    as many entries as there are questions. *)
Theorem controls_submit_only_from_a_live_session
    (linkId : string) (assessment : option Assessment)
    (checkingValidity isValid validityError : bool)
    (action : UiAction) (st : PageState) :
  submissionInvoked
    (uiStep linkId assessment checkingValidity isValid validityError
            st action).2 = true →
  (∃ submitted, action = ClickSubmit false submitted)
  ∧ checkingValidity = false ∧ isValid = true
  ∧ isStarted st = true ∧ isTimeUp st = false
  ∧ is_Some (currentQuestion assessment st)
  ∧ allQuestionsAnswered assessment st = true.
Proof.
  intros Hinvoked.
  destruct (uiStep_cases linkId assessment checkingValidity isValid
                         validityError st action)
    as [[_ [Hout|Hout]]|(e & He & Hstep)];
    try (rewrite Hout in Hinvoked; discriminate).
  rewrite Hstep in Hinvoked.
  apply step_submissionInvoked in Hinvoked
    as (submitted & -> & Hup & Hall).
  destruct action; simpl in He; try discriminate;
    repeat (match type of He with
            | (if ?b then _ else _) = _ => destruct b eqn:?
            | match ?o with Some _ => _ | None => _ end = _ => destruct o
            end; try discriminate).
  injection He as -> ->.
  match goal with
  | H : _ && questionPanelShown _ _ = true |- _ =>
      apply andb_prop in H as [Hscreen Hpanel]
  end.
  apply onScreen_InProgress in Hscreen as (Hc & Hv & Hs & _).
  split; [by eexists|]. do 4 (split; [done|]). split; [|done].
  unfold questionPanelShown in Hpanel.
  destruct (currentSection assessment st); [|done].
  by destruct (currentQuestion assessment st).
Qed.

Lemma controls_submit_only_from_a_live_session_witness :
  let st := (uiRun "link" (Some oneQuestion) false true false initialState
               [ClickStart false (Some (runningAttempt 0));
                ChangeAnswer choiceAnswer Fulfilled]).1 in
  submissionInvoked
    (uiStep "link" (Some oneQuestion) false true false st
            (ClickSubmit false Fulfilled)).2 = true
  ∧ isStarted st = true
  ∧ allQuestionsAnswered (Some oneQuestion) st = true.
Proof.
  intros st.
  assert (Hinvoked : submissionInvoked
            (uiStep "link" (Some oneQuestion) false true false st
                    (ClickSubmit false Fulfilled)).2 = true)
    by reflexivity.
  destruct (controls_submit_only_from_a_live_session
              "link" (Some oneQuestion) false true false
              (ClickSubmit false Fulfilled) st Hinvoked)
    as (_ & _ & _ & Hstarted & _ & _ & Hall).
  split; [exact Hinvoked|]. split; [exact Hstarted | exact Hall].
Defined.

Lemma currentQuestion_questionIds a st question :
  currentQuestion (Some a) st = Some question →
  question_id question ∈ questionIds a.
Proof.
  unfold currentQuestion, currentSection.
  destruct (index (sections a) (currentSectionIndex st)) as [section|] eqn:Hs;
    [|done].
  intros Hq. unfold index in Hs, Hq.
  destruct (decide (0 <= currentSectionIndex st)); [|done].
  destruct (decide (0 <= currentQuestionIndex st)); [|done].
  apply list_elem_of_lookup_2 in Hs, Hq.
  unfold questionIds. apply list_elem_of_In, in_flat_map.
  exists section. split; [by apply list_elem_of_In|].
  apply in_map. by apply list_elem_of_In.
Qed.

Lemma answers_step_navigation linkId assessment st e :
  (∀ result, e ≠ Start result) →
  (∀ questionId answer saved, e ≠ Answer questionId answer saved) →
  answers (step linkId assessment st e).1 = answers st.
Proof.
  intros Hstart Hanswer.
  destruct st as [attempt s q store started remaining up].
  destruct e; simpl.
  - by destruct (Hstart result).
  - unfold timerTick, updateTimer. simpl. by repeat case_match.
  - by destruct (Hanswer questionId answer saved).
  - unfold navigateToQuestion. simpl. by destruct up.
  - unfold handleNext. simpl. by repeat case_match.
  - unfold handlePrevious. simpl. by repeat case_match.
  - done.
Qed.

Lemma uiStep_answers_within linkId a checkingValidity isValid validityError
    st action :
  dom (answers st) ⊆ (list_to_set (questionIds a) : gset string) →
  resultWithin a action →
  dom (answers (uiStep linkId (Some a) checkingValidity isValid validityError
                       st action).1)
  ⊆ (list_to_set (questionIds a) : gset string).
Proof.
  intros Hdom Hresult.
  destruct (uiStep_cases linkId (Some a) checkingValidity isValid
                         validityError st action)
    as [[-> _]|(e & He & ->)]; [done|].
  destruct action; simpl in He.
  - destruct (_ && negb _); [|done]. injection He as <-. simpl.
    unfold handleStartAssessment. destruct result as [attempt|]; [|done].
    simpl in Hresult.
    destruct (assessmentAnswers attempt) as [[|answer saved]|]; try done.
    simpl. rewrite dom_restoredAnswers.
    intros k Hk%elem_of_list_to_set. apply elem_of_list_to_set.
    apply list_elem_of_In, in_map_iff in Hk as (b & <- & Hb).
    by apply (proj1 (Forall_forall _ _) Hresult), list_elem_of_In.
  - injection He as <-. by rewrite answers_step_navigation.
  - destruct (_ && questionPanelShown _ _); [|done].
    destruct (currentQuestion (Some a) st) as [question|] eqn:Hquestion;
      [|done].
    injection He as <-. simpl. unfold handleAnswerChange.
    destruct (isTimeUp st); [done|]. simpl. rewrite dom_insert_L.
    apply union_least; [|done].
    apply singleton_subseteq_l, elem_of_list_to_set.
    by apply (currentQuestion_questionIds a st).
  - destruct (_ && sidebarHas _ _ _); [|done]. injection He as <-.
    by rewrite answers_step_navigation.
  - destruct (_ && _ && _ && _); [|done]. injection He as <-.
    by rewrite answers_step_navigation.
  - destruct (_ && _ && _); [|done]. injection He as <-.
    by rewrite answers_step_navigation.
  - destruct (_ && questionPanelShown _ _); [|done]. injection He as <-.
    by rewrite answers_step_navigation.
  - done.
Qed.

(** X21: when every answer a start brings back belongs to a question of the
    assessment, a session driven through the rendered controls only ever
    stores answers under question ids of the assessment, because the
    question card reports changes for the question under the cursor; the
    answered count then never exceeds the total number of questions. *)
Theorem controls_store_answers_of_questions_only
    (linkId : string) (a : Assessment)
    (checkingValidity isValid validityError : bool)
    (actions : list UiAction) (st : PageState) :
  dom (answers st) ⊆ (list_to_set (questionIds a) : gset string) →
  Forall (resultWithin a) actions →
  let st' := (uiRun linkId (Some a) checkingValidity isValid validityError
                    st actions).1 in
  dom (answers st') ⊆ (list_to_set (questionIds a) : gset string)
  ∧ (answeredQuestions st' ≤ totalQuestions (Some a))%nat.
Proof.
  intros Hdom Hresults.
  enough (Hkeys : dom (answers
            (uiRun linkId (Some a) checkingValidity isValid validityError
                   st actions).1)
          ⊆ (list_to_set (questionIds a) : gset string)).
  { split; [done|].
    unfold answeredQuestions, objectKeysLength.
    rewrite <- (size_dom (D := gset string)), totalQuestions_questionIds.
    etrans; [by apply subseteq_size | apply size_list_to_set_le]. }
  revert st Hdom.
  induction Hresults as [|action actions Hresult _ IH]; intros st Hdom;
    simpl; [done|].
  pose proof (uiStep_answers_within linkId a checkingValidity isValid
                validityError st action Hdom Hresult) as Hstep.
  destruct (uiStep _ _ _ _ _ st action) as [st1 out1]. simpl in Hstep.
  specialize (IH st1 Hstep).
  by destruct (uiRun _ _ _ _ _ st1 actions) as [st2 out2].
Qed.

Lemma controls_store_answers_of_questions_only_witness :
  let actions := [ClickStart false (Some (runningAttempt 0));
                  ChangeAnswer choiceAnswer Fulfilled; ClickNext;
                  ChangeAnswer blankAnswer Rejected] in
  dom (answers initialState)
    ⊆ (list_to_set (questionIds twoSections) : gset string)
  ∧ Forall (resultWithin twoSections) actions
  ∧ (answeredQuestions
       (uiRun "link" (Some twoSections) false true false
              initialState actions).1
     ≤ totalQuestions (Some twoSections))%nat.
Proof.
  intros actions.
  assert (Hdom : dom (answers initialState)
                 ⊆ (list_to_set (questionIds twoSections) : gset string)).
  { simpl. rewrite dom_empty_L. apply empty_subseteq. }
  assert (Hresults : Forall (resultWithin twoSections) actions)
    by (repeat constructor).
  split; [exact Hdom|]. split; [exact Hresults|].
  exact (proj2 (controls_store_answers_of_questions_only
                  "link" twoSections false true false actions initialState
                  Hdom Hresults)).
Defined.

(** ** Starting once *)

Lemma step_no_start_call linkId assessment st e :
  (∀ result, e ≠ Start result) →
  startInvoked (step linkId assessment st e).2 = false.
Proof.
  intros Hstart. destruct e; simpl.
  - by destruct (Hstart result).
  - unfold timerTick, updateTimer. repeat case_match; reflexivity.
  - unfold handleAnswerChange. repeat case_match; reflexivity.
  - unfold navigateToQuestion. repeat case_match; reflexivity.
  - done.
  - done.
  - unfold clickSubmit, handleSubmit. repeat case_match; reflexivity.
Qed.

Lemma step_keeps_attempt linkId assessment st e :
  (∀ result, e ≠ Start result) →
  assessmentAttempt (step linkId assessment st e).1 = assessmentAttempt st
  ∧ isStarted (step linkId assessment st e).1 = isStarted st.
Proof.
  intros Hstart. destruct e as [result|now| | | | |].
  1: by destruct (Hstart result).
  1: by destruct (timerTick_cells assessment now st) as (? & ? & _).
  all: match goal with
       | |- context [step _ _ _ ?e] =>
           destruct (step_session_cells linkId assessment st e)
             as (Ha & Hs & _); [done | done | by split]
       end.
Qed.

(** X22: a session is started once.  After a successful start no sequence
    of clicks and ticks contacts the start collaborator again or replaces
    the attempt, so the [startedAt] the countdown is anchored at cannot be
    moved. *)
Theorem started_session_is_never_restarted
    (linkId : string) (assessment : option Assessment)
    (checkingValidity isValid validityError : bool)
    (actions : list UiAction) (st : PageState) :
  isStarted st = true →
  let session := uiRun linkId assessment checkingValidity isValid
                       validityError st actions in
  assessmentAttempt session.1 = assessmentAttempt st
  ∧ isStarted session.1 = true
  ∧ startInvoked session.2 = false.
Proof.
  revert st. induction actions as [|action actions IH]; intros st Hstarted;
    simpl; [done|].
  assert (Hstep :
    let r := uiStep linkId assessment checkingValidity isValid validityError
                    st action in
    assessmentAttempt r.1 = assessmentAttempt st
    ∧ isStarted r.1 = true ∧ startInvoked r.2 = false).
  { destruct (uiStep_cases linkId assessment checkingValidity isValid
                           validityError st action)
      as [[Hsame [Hout|Hout]]|(e & He & Hstep)]; simpl.
    - by rewrite Hsame, Hout.
    - by rewrite Hsame, Hout.
    - rewrite Hstep.
      assert (Hnot : ∀ result, e ≠ Start result).
      { destruct (uiEvent_live_screen assessment checkingValidity isValid
                    validityError st action e He)
          as [[now ->]|[[Hpre _]|[_ Hnot]]]; [done| |done].
        apply onScreen_PreAssessment in Hpre as (_ & _ & Hno). congruence. }
      destruct (step_keeps_attempt linkId assessment st e Hnot) as [-> ->].
      by rewrite step_no_start_call. }
  destruct (uiStep _ _ _ _ _ st action) as [st1 out1]. simpl in Hstep.
  destruct Hstep as (Hattempt & Hstarted1 & Hout1).
  specialize (IH st1 Hstarted1).
  destruct (uiRun _ _ _ _ _ st1 actions) as [st2 out2]. simpl in *.
  destruct IH as (-> & -> & Hout2). split; [done|]. split; [done|].
  unfold startInvoked in *. by rewrite existsb_app, Hout1, Hout2.
Qed.

Lemma started_session_is_never_restarted_witness :
  let st := (handleStartAssessment "link" (Some (runningAttempt 5))
                                   initialState).1 in
  isStarted st = true
  ∧ assessmentAttempt
      (uiRun "link" (Some twoSections) false true false st
             [ClickStart false (Some (runningAttempt 99)); ClockTick 7]).1
    = Some (runningAttempt 5).
Proof.
  intros st. split; [reflexivity|].
  exact (proj1 (started_session_is_never_restarted
                  "link" (Some twoSections) false true false
                  [ClickStart false (Some (runningAttempt 99)); ClockTick 7]
                  st eq_refl)).
Defined.

(** ** The answered dots of the sidebar *)





